(** * Security layer of the Go-club bot (security.py)

    A shallow embedding of [SecurityManager] and [SecurityMiddleware]:
    input validation, attack-pattern detection, per-user rate limiting,
    the block list, and HMAC signing.

    Conventions of the model.
    - Python [str] values are Rocq strings; a character stands for the code
      point of the same number (0..255).
    - Python [int] values are [Z].
    - [datetime] values are [Z], in microseconds since 0001-01-01 00:00:00;
      [timedelta] values are [Z] microseconds.  Out-of-range results raise
      [OverflowError] as in Python.
    - The MongoDB collections are lists of documents, in insertion order.
      Every awaited operation on a collection or on the Telegram API may
      raise; whether it does is read from a fault plan carried by the world.
*)

From Stdlib Require Import ZArith List Bool Ascii String Lia Arith.
From Stdlib Require Import DecimalString DecimalZ.
Import ListNotations.

Local Open Scope string_scope.
Local Open Scope Z_scope.

Set Implicit Arguments.

(* ------------------------------------------------------------------ *)
(** * Regular expressions ([re] patterns used by the module)          *)
(* ------------------------------------------------------------------ *)

Module Re.

(** Members of a bracketed class, and the escapes [\d], [\s]. *)
Inductive atom : Type :=
| AChar (c : ascii)
| ARange (lo hi : ascii)
| ADigit
| ASpace.

(** What one pattern position can consume. *)
Inductive cset : Type :=
| One (a : atom)
| Dot
| Class (items : list atom).

(** The pattern syntax used by [patterns] and [attack_patterns]:
    repetition is only ever applied to a single-character matcher. *)
Inductive regex : Type :=
| Empty
| Single (cs : cset)
| Repeat (cs : cset) (lo : nat) (hi : option nat) (greedy : bool)
| Bol
| Eol
| Cat (r1 r2 : regex)
| Alt (r1 r2 : regex)
| Group (r : regex).

(** A compiled pattern: the expression and the flags given to [re.compile]. *)
Record pattern : Type := mkPattern {
  expr : regex;
  IGNORECASE : bool;
  DOTALL : bool
}.

Definition code (c : ascii) : nat := nat_of_ascii c.

Definition between (lo hi x : nat) : bool :=
  (Nat.leb lo x && Nat.leb x hi)%bool.

Definition is_upper (c : ascii) : bool := between 65 90 (code c).
Definition is_lower (c : ascii) : bool := between 97 122 (code c).

Definition lower (c : ascii) : ascii :=
  if is_upper c then ascii_of_nat (code c + 32) else c.

Definition upper (c : ascii) : ascii :=
  if is_lower c then ascii_of_nat (code c - 32) else c.

(** [\d]: decimal digits.  Among code points 0..255 these are 0-9. *)
Definition is_digit (c : ascii) : bool := between 48 57 (code c).

(** [\s]: whitespace as [str.isspace] sees it, among code points 0..255. *)
Definition is_space (c : ascii) : bool :=
  let n := code c in
  (between 9 13 n || between 28 32 n || Nat.eqb n 133 || Nat.eqb n 160)%bool.

Definition newline : ascii := ascii_of_nat 10.

Definition atom_matches (icase : bool) (a : atom) (x : ascii) : bool :=
  match a with
  | AChar c =>
      if icase then Ascii.eqb (lower x) (lower c) else Ascii.eqb x c
  | ARange lo hi =>
      let inr y := between (code lo) (code hi) (code y) in
      if icase then (inr x || inr (lower x) || inr (upper x))%bool else inr x
  | ADigit => is_digit x
  | ASpace => is_space x
  end.

Definition cset_matches (p : pattern) (cs : cset) (x : ascii) : bool :=
  match cs with
  | One a => atom_matches (IGNORECASE p) a x
  | Dot => if DOTALL p then true else negb (Ascii.eqb x newline)
  | Class items => existsb (fun a => atom_matches (IGNORECASE p) a x) items
  end.

(** [$] without MULTILINE: at the end, or just before a final newline. *)
Definition at_end (s : string) : bool :=
  match s with
  | EmptyString => true
  | String c EmptyString => Ascii.eqb c newline
  | _ => false
  end.

Definition more_allowed (hi : option nat) : bool :=
  match hi with
  | Some O => false
  | _ => true
  end.

Definition one_less (hi : option nat) : option nat :=
  match hi with
  | Some n => Some (Nat.pred n)
  | None => None
  end.

Definition or_else {A} (x y : option A) : option A :=
  match x with
  | Some _ => x
  | None => y
  end.

(** The continuation receives the position reached and the text left. *)
Definition cont : Type := nat -> string -> option nat.

(** Backtracking repetition of a one-character matcher: a greedy
    repetition tries one more character before trying to stop, a lazy one
    ([*?]) tries to stop first. *)
Fixpoint rep (p : pattern) (cs : cset) (greedy : bool)
    (lo : nat) (hi : option nat) (k : cont) (pos : nat) (s : string)
    {struct s} : option nat :=
  let stop := if Nat.eqb lo 0 then k pos s else None in
  match s with
  | EmptyString => stop
  | String a s' =>
      if (more_allowed hi && cset_matches p cs a)%bool then
        let go := rep p cs greedy (Nat.pred lo) (one_less hi) k (S pos) s' in
        if greedy then or_else go stop else or_else stop go
      else stop
  end.

(** The backtracking matcher; alternatives are tried left to right. *)
Fixpoint exec (p : pattern) (r : regex) (k : cont) (pos : nat) (s : string)
    {struct r} : option nat :=
  match r with
  | Empty => k pos s
  | Single cs =>
      match s with
      | String a s' => if cset_matches p cs a then k (S pos) s' else None
      | EmptyString => None
      end
  | Repeat cs lo hi greedy => rep p cs greedy lo hi k pos s
  | Bol => if Nat.eqb pos 0 then k pos s else None
  | Eol => if at_end s then k pos s else None
  | Cat r1 r2 => exec p r1 (exec p r2 k) pos s
  | Alt r1 r2 => or_else (exec p r1 k pos s) (exec p r2 k pos s)
  | Group r1 => exec p r1 k pos s
  end.

Definition accept : cont := fun pos _ => Some pos.

(** [pattern.match(text)]: the match must start at position 0.
    The result is the end position of the match. *)
Definition re_match (p : pattern) (text : string) : option nat :=
  exec p (expr p) accept O text.

(** Scan start positions from left to right. *)
Fixpoint search_from (p : pattern) (pos : nat) (s : string)
    : option (nat * nat) :=
  match exec p (expr p) accept pos s with
  | Some e => Some (pos, e)
  | None =>
      match s with
      | EmptyString => None
      | String _ s' => search_from p (S pos) s'
      end
  end.

(** [pattern.search(text)], giving [match.group(0)]. *)
Definition re_search (p : pattern) (text : string) : option string :=
  match search_from p O text with
  | Some (b, e) => Some (substring b (e - b) text)
  | None => None
  end.

(** Building blocks for writing patterns. *)
Definition chr (c : ascii) : regex := Single (One (AChar c)).

Fixpoint lit (s : string) : regex :=
  match s with
  | EmptyString => Empty
  | String c EmptyString => chr c
  | String c s' => Cat (chr c) (lit s')
  end.

Fixpoint cats (rs : list regex) : regex :=
  match rs with
  | [] => Empty
  | [r] => r
  | r :: rs' => Cat r (cats rs')
  end.

Fixpoint alts (rs : list regex) : regex :=
  match rs with
  | [] => Empty
  | [r] => r
  | r :: rs' => Alt r (alts rs')
  end.

Definition exactly (cs : cset) (n : nat) : regex := Repeat cs n (Some n) true.
Definition star_lazy (cs : cset) : regex := Repeat cs 0 None false.
Definition star (cs : cset) : regex := Repeat cs 0 None true.
Definition plus (cs : cset) : regex := Repeat cs 1 None true.

End Re.

(* ------------------------------------------------------------------ *)
(** * Input validation and attack detection                           *)
(* ------------------------------------------------------------------ *)

Module Validation.
Import Re.

Local Open Scope char_scope.

Definition dquote : ascii := ascii_of_nat 34.
Definition plain (r : regex) : pattern := mkPattern r false false.
Definition icase (r : regex) : pattern := mkPattern r true false.
Definition icase_dotall (r : regex) : pattern := mkPattern r true true.

(** [self.patterns]: the dict of validation rules, in source order. *)
Definition patterns : list (string * pattern) :=
  [ ("name"%string,
      (* ^[A-Za-z0-9\s\-_.]{2,50}$ *)
      plain (cats [Bol;
        Repeat (Class [ARange "A" "Z"; ARange "a" "z"; ARange "0" "9"; ASpace;
                       AChar "-"; AChar "_"; AChar "."]) 2 (Some 50%nat) true;
        Eol]));
    ("rank"%string,
      (* ^(3[0]|[1-2][0-9]|[1-9])k$|^([1-9])d$ *)
      plain (Alt
        (cats [Bol;
               Group (alts [Cat (chr "3") (Single (Class [AChar "0"]));
                            Cat (Single (Class [ARange "1" "2"]))
                                (Single (Class [ARange "0" "9"]));
                            Single (Class [ARange "1" "9"])]);
               chr "k"; Eol])
        (cats [Bol; Group (Single (Class [ARange "1" "9"])); chr "d"; Eol])));
    ("ogs_username"%string,
      (* ^[A-Za-z0-9\-_.]{3,20}$ *)
      plain (cats [Bol;
        Repeat (Class [ARange "A" "Z"; ARange "a" "z"; ARange "0" "9";
                       AChar "-"; AChar "_"; AChar "."]) 3 (Some 20%nat) true;
        Eol]));
    ("date"%string,
      (* ^\d{4}-\d{2}-\d{2}$ *)
      plain (cats [Bol; exactly (One ADigit) 4; chr "-";
                   exactly (One ADigit) 2; chr "-";
                   exactly (One ADigit) 2; Eol]));
    ("time"%string,
      (* ^\d{2}:\d{2}$ *)
      plain (cats [Bol; exactly (One ADigit) 2; chr ":";
                   exactly (One ADigit) 2; Eol]));
    ("url"%string,
      (* ^https?://.+$ *)
      plain (cats [Bol; lit "http"; Repeat (One (AChar "s")) 0 (Some 1%nat) true;
                   lit "://"; plus Dot; Eol])) ].

(** [self.attack_patterns], in source order. *)
Definition attack_patterns : list pattern :=
  [ (* <script.*?>.*?</script>   IGNORECASE | DOTALL *)
    icase_dotall (cats [lit "<script"; star_lazy Dot; chr ">";
                        star_lazy Dot; lit "</script>"]);
    (* javascript: *)
    icase (lit "javascript:");
    (* onload= *)
    icase (lit "onload=");
    (* onerror= *)
    icase (lit "onerror=");
    (* %3Cscript *)
    icase (lit "%3Cscript");
    (* %22%3E%3Cscript *)
    icase (lit "%22%3E%3Cscript");
    (* (?:Q).*?(?:OR|AND).*?(?:Q)\s*=   where Q is: \' or \dquote *)
    icase (cats [Group (Alt (chr "'") (chr dquote)); star_lazy Dot;
                 Group (Alt (lit "OR") (lit "AND")); star_lazy Dot;
                 Group (Alt (chr "'") (chr dquote)); star (One ASpace);
                 chr "="]);
    (* (?:INSERT|UPDATE|DELETE|DROP|SELECT)\s+(?:FROM|INTO|TABLE) *)
    icase (cats [Group (alts [lit "INSERT"; lit "UPDATE"; lit "DELETE";
                              lit "DROP"; lit "SELECT"]);
                 plus (One ASpace);
                 Group (alts [lit "FROM"; lit "INTO"; lit "TABLE"])]) ].

(** [dict.get]. *)
Fixpoint get {V} (d : list (string * V)) (key : string) : option V :=
  match d with
  | [] => None
  | (k, v) :: d' => if String.eqb k key then Some v else get d' key
  end.

(** Truth value of an optional [str]: [None] and the empty string are falsy. *)
Definition truthy (value : option string) : bool :=
  match value with
  | None => false
  | Some EmptyString => false
  | Some _ => true
  end.

Definition is_some {A} (o : option A) : bool :=
  match o with
  | Some _ => true
  | None => false
  end.

(** [SecurityManager.validate_input]. *)
Definition validate_input (input_type : string) (value : option string) : bool :=
  match value with
  | Some (String _ _ as v) =>
      match get patterns input_type with
      | None => true
      | Some pattern => is_some (re_match pattern v)
      end
  | _ => false
  end.

(** The loop of [detect_potential_attack] over a list of patterns. *)
Fixpoint first_match (pats : list pattern) (value : string) : bool * string :=
  match pats with
  | [] => (false, ""%string)
  | pattern :: rest =>
      match re_search pattern value with
      | Some m => (true, m)
      | None => first_match rest value
      end
  end.

(** [SecurityManager.detect_potential_attack]. *)
Definition detect_potential_attack (value : string) : bool * string :=
  match value with
  | EmptyString => (false, ""%string)
  | _ => first_match attack_patterns value
  end.

(** [pattern.search(value)] finds nothing. *)
Definition no_match (value : string) (p : pattern) : Prop :=
  re_search p value = None.

End Validation.

Import Validation.

(* ------------------------------------------------------------------ *)
(** * SHA-256 and HMAC ([hashlib.sha256], [hmac.new])                 *)
(* ------------------------------------------------------------------ *)

Module Sha256.

Local Open Scope list_scope.

(** Bytes are integers in 0..255, words are integers in 0..2^32-1. *)
Definition w32 (x : Z) : Z := x mod 4294967296.
Definition add32 (x y : Z) : Z := w32 (x + y).
Definition rotr (n x : Z) : Z :=
  w32 (Z.lor (Z.shiftr x n) (Z.shiftl x (32 - n))).
Definition not32 (x : Z) : Z := 4294967295 - x.

Definition Ch (x y z : Z) : Z := Z.lxor (Z.land x y) (Z.land (not32 x) z).
Definition Maj (x y z : Z) : Z :=
  Z.lxor (Z.lxor (Z.land x y) (Z.land x z)) (Z.land y z).
Definition Sigma0 (x : Z) : Z := Z.lxor (Z.lxor (rotr 2 x) (rotr 13 x)) (rotr 22 x).
Definition Sigma1 (x : Z) : Z := Z.lxor (Z.lxor (rotr 6 x) (rotr 11 x)) (rotr 25 x).
Definition sigma0 (x : Z) : Z := Z.lxor (Z.lxor (rotr 7 x) (rotr 18 x)) (Z.shiftr x 3).
Definition sigma1 (x : Z) : Z := Z.lxor (Z.lxor (rotr 17 x) (rotr 19 x)) (Z.shiftr x 10).

(** The first 64 primes. *)
Definition primes : list Z :=
  [2; 3; 5; 7; 11; 13; 17; 19; 23; 29; 31; 37; 41; 43; 47; 53; 59; 61; 67;
   71; 73; 79; 83; 89; 97; 101; 103; 107; 109; 113; 127; 131; 137; 139; 149;
   151; 157; 163; 167; 173; 179; 181; 191; 193; 197; 199; 211; 223; 227;
   229; 233; 239; 241; 251; 257; 263; 269; 271; 277; 281; 283; 293; 307;
   311].

(** Integer cube root below [2^bits], found bit by bit from the top. *)
Fixpoint cbrt_bits (bits : nat) (x acc : Z) : Z :=
  match bits with
  | O => acc
  | S b =>
      let try := acc + Z.shiftl 1 (Z.of_nat b) in
      cbrt_bits b x (if try * try * try <=? x then try else acc)
  end.

(** The round constants: the first 32 bits of the fractional parts of the
    cube roots of the first 64 primes. *)
Definition K : list Z :=
  Eval vm_compute in
    map (fun p => w32 (cbrt_bits 36 (p * Z.shiftl 1 96) 0)) primes.

(** The initial hash value: the first 32 bits of the fractional parts of
    the square roots of the first 8 primes. *)
Definition H0 : list Z :=
  Eval vm_compute in
    map (fun p => w32 (Z.sqrt (p * Z.shiftl 1 64))) (firstn 8 primes).

(** Big-endian encoding of [x] on [n] bytes. *)
Fixpoint be_bytes (n : nat) (x : Z) : list Z :=
  match n with
  | O => []
  | S n' => be_bytes n' (x / 256) ++ [x mod 256]
  end.

Definition be_word (bs : list Z) : Z :=
  fold_left (fun acc b => acc * 256 + b mod 256) bs 0.

(** Message padding: 0x80, zeros up to 56 mod 64, then the bit length. *)
Definition pad (msg : list Z) : list Z :=
  let len := Z.of_nat (List.length msg) in
  let zeros := Z.to_nat ((55 - len) mod 64) in
  msg ++ [128] ++ repeat 0 zeros ++ be_bytes 8 (8 * len).

Fixpoint chunks (n : nat) (fuel : nat) (l : list Z) : list (list Z) :=
  match fuel with
  | O => []
  | S fuel' =>
      match l with
      | [] => []
      | _ => firstn n l :: chunks n fuel' (skipn n l)
      end
  end.

(** The message schedule, extended from 16 to 64 words. *)
Fixpoint extend (count : nat) (w : list Z) : list Z :=
  match count with
  | O => w
  | S count' =>
      let t := List.length w in
      let at_ i := nth (t - i) w 0 in
      extend count' (w ++ [add32 (add32 (sigma1 (at_ 2%nat)) (at_ 7%nat))
                                 (add32 (sigma0 (at_ 15%nat)) (at_ 16%nat))])
  end.

Definition round (st : list Z) (kw : Z * Z) : list Z :=
  match st with
  | [a; b; c; d; e; f; g; h] =>
      let t1 := add32 (add32 (add32 h (Sigma1 e)) (add32 (Ch e f g) (fst kw))) (snd kw) in
      let t2 := add32 (Sigma0 a) (Maj a b c) in
      [add32 t1 t2; a; b; c; add32 d t1; e; f; g]
  | _ => st
  end.

Definition compress (h : list Z) (block : list Z) : list Z :=
  let w := extend 48 (map be_word (chunks 4 16 block)) in
  let st := fold_left round (combine K w) h in
  map (fun xy => add32 (fst xy) (snd xy)) (combine h st).

Definition digest (msg : list Z) : list Z :=
  let padded := pad msg in
  let h := fold_left compress (chunks 64 (List.length padded) padded) H0 in
  flat_map (be_bytes 4) h.

(** [hmac.new(key, msg, hashlib.sha256).digest()]. *)
Definition hmac (key msg : list Z) : list Z :=
  let key0 := if Nat.ltb 64 (List.length key) then digest key else key in
  let key1 := key0 ++ repeat 0 (64 - List.length key0) in
  let ipad := map (Z.lxor 0x36) key1 in
  let opad := map (Z.lxor 0x5c) key1 in
  digest (opad ++ digest (ipad ++ msg)).

Definition hexdigit (n : Z) : ascii :=
  match n mod 16 with
  | 0 => "0" | 1 => "1" | 2 => "2" | 3 => "3" | 4 => "4" | 5 => "5"
  | 6 => "6" | 7 => "7" | 8 => "8" | 9 => "9" | 10 => "a" | 11 => "b"
  | 12 => "c" | 13 => "d" | 14 => "e" | _ => "f"
  end%char.

(** [hexdigest()]: two lowercase hexadecimal digits per byte. *)
Fixpoint hex (bs : list Z) : string :=
  match bs with
  | [] => EmptyString
  | b :: bs' => String (hexdigit (b / 16)) (String (hexdigit b) (hex bs'))
  end.

(** [str.encode()]: UTF-8, for code points 0..255. *)
Fixpoint encode (s : string) : list Z :=
  match s with
  | EmptyString => []
  | String c s' =>
      let n := Z.of_nat (nat_of_ascii c) in
      if n <? 128 then n :: encode s'
      else (192 + n / 64) :: (128 + n mod 64) :: encode s'
  end.

End Sha256.

(* ------------------------------------------------------------------ *)
(** * Runtime: exceptions, dates, documents, the world, coroutines    *)
(* ------------------------------------------------------------------ *)

Inductive exn : Type :=
| PyMongoError      (* an awaited collection operation failed *)
| TelegramAPIError  (* an awaited Bot API call failed *)
| OverflowError
| TypeError
| CancelHandler.

Inductive outcome (A : Type) : Type :=
| Return (a : A)
| Raise (e : exn).

Arguments Raise {A} e.

Module DateTime.

Definition US_PER_SECOND : Z := 1000000.
Definition US_PER_DAY : Z := 86400 * US_PER_SECOND.

(** [datetime.max], 9999-12-31 23:59:59.999999. *)
Definition max : Z := 3652059 * US_PER_DAY - 1.

(** [timedelta(days=.., seconds=.., hours=..)]: the number of days of the
    normalised value must lie within +-999999999. *)
Definition timedelta (days seconds hours : Z) : outcome Z :=
  let us := days * US_PER_DAY + seconds * US_PER_SECOND
            + hours * 3600 * US_PER_SECOND in
  if Z.abs (us / US_PER_DAY) <=? 999999999 then Return us
  else Raise OverflowError.

Definition in_range (t : Z) : bool := (0 <=? t) && (t <=? max).

(** [datetime + timedelta] and [datetime - timedelta]. *)
Definition add (t d : Z) : outcome Z :=
  if in_range (t + d) then Return (t + d) else Raise OverflowError.

Definition sub (t d : Z) : outcome Z :=
  if in_range (t - d) then Return (t - d) else Raise OverflowError.

End DateTime.

(** [str(n)] for an [int]. *)
Definition str (n : Z) : string := NilZero.string_of_int (Z.to_int n).

Definition nl : string := String (ascii_of_nat 10) EmptyString.

(** ** Documents of the four collections *)

(** [db.rate_limits] *)
Record RateLimit : Type := mkRateLimit {
  rl_key : string;
  rl_user_id : Z;
  rl_action_type : string;
  rl_count : Z;
  rl_window_start : Z;
  rl_last_action : Z
}.

(** [db.blocked_users] *)
Record Block : Type := mkBlock {
  bl_user_id : Z;
  bl_reason : string;
  bl_blocked_at : Z;
  bl_blocked_by : option Z;
  bl_expiry : option Z
}.

(** Values stored in the [details] dict of a log entry. *)
Inductive value : Type :=
| VNone
| VInt (n : Z)
| VStr (s : string).

(** [db.security_logs] *)
Record SecurityLog : Type := mkSecurityLog {
  sl_event_type : string;
  sl_user_id : Z;
  sl_details : list (string * value);
  sl_severity : string;
  sl_timestamp : Z
}.

(** [db.users], as far as this module reads and writes it. *)
Record User : Type := mkUser {
  us_telegram_id : Z;
  us_name : option string;
  us_last_activity : option Z
}.

(** What has been sent through the Bot API. *)
Inductive chat_id : Type :=
| ChatInt (n : Z)
| ChatStr (s : string).

Inductive outgoing : Type :=
| SendMessage (chat : chat_id) (text : string)
| AdminAlert (admin : string) (level : string) (message : string)
| Reply (message_id : Z) (text : string)
| Answer (callback_id : string) (text : string)
| DeleteMessage (chat : Z) (message_id : Z).

(** ** The world *)

Record World : Type := mkWorld {
  clock : nat -> Z;       (* successive readings of [datetime.now()] *)
  ticks : nat;            (* readings taken so far *)
  fault : nat -> bool;    (* does the n-th awaited operation raise? *)
  calls : nat;            (* awaited operations issued so far *)
  rate_limits : list RateLimit;
  blocked_users : list Block;
  security_logs : list SecurityLog;
  users : list User;
  outbox : list outgoing
}.

Definition tick (w : World) : World :=
  mkWorld (clock w) (S (ticks w)) (fault w) (calls w) (rate_limits w)
          (blocked_users w) (security_logs w) (users w) (outbox w).

Definition called (w : World) : World :=
  mkWorld (clock w) (ticks w) (fault w) (S (calls w)) (rate_limits w)
          (blocked_users w) (security_logs w) (users w) (outbox w).

Definition set_rate_limits (c : list RateLimit) (w : World) : World :=
  mkWorld (clock w) (ticks w) (fault w) (calls w) c
          (blocked_users w) (security_logs w) (users w) (outbox w).

Definition set_blocked_users (c : list Block) (w : World) : World :=
  mkWorld (clock w) (ticks w) (fault w) (calls w) (rate_limits w)
          c (security_logs w) (users w) (outbox w).

Definition set_security_logs (c : list SecurityLog) (w : World) : World :=
  mkWorld (clock w) (ticks w) (fault w) (calls w) (rate_limits w)
          (blocked_users w) c (users w) (outbox w).

Definition set_users (c : list User) (w : World) : World :=
  mkWorld (clock w) (ticks w) (fault w) (calls w) (rate_limits w)
          (blocked_users w) (security_logs w) c (outbox w).

Definition set_outbox (c : list outgoing) (w : World) : World :=
  mkWorld (clock w) (ticks w) (fault w) (calls w) (rate_limits w)
          (blocked_users w) (security_logs w) (users w) c.

(** ** Collection operations on a list of documents *)

Module Mongo.
Section Collection.
Variable D : Type.

(** [find_one]: the first document that matches. *)
Definition find_one (q : D -> bool) (c : list D) : option D := find q c.

(** [insert_one] *)
Definition insert_one (d : D) (c : list D) : list D := (c ++ [d])%list.

(** [update_one]: rewrites the first document that matches. *)
Fixpoint update_one (q : D -> bool) (upd : D -> D) (c : list D) : list D :=
  match c with
  | [] => []
  | d :: c' => if q d then upd d :: c' else d :: update_one q upd c'
  end.

(** [delete_one]: removes the first document that matches;
    gives the new collection and [deleted_count]. *)
Fixpoint delete_one (q : D -> bool) (c : list D) : list D * Z :=
  match c with
  | [] => ([], 0)
  | d :: c' =>
      if q d then (c', 1)
      else let (r, n) := delete_one q c' in (d :: r, n)
  end.

(** [find(q).to_list(length=None)] and [count_documents(q)]. *)
Definition find_all (q : D -> bool) (c : list D) : list D := filter q c.
Definition count_documents (q : D -> bool) (c : list D) : Z :=
  Z.of_nat (List.length (filter q c)).

End Collection.
End Mongo.

(** ** Coroutines

    An [async def] body is a tree of steps.  [Now] reads the clock and
    does not suspend.  [Await] issues one operation on the outside world
    and suspends until it completes; the operation either gives a value
    or raises, and the two continuations say what the coroutine does
    next in each case. *)

Definition io (X : Type) : Type := World -> outcome X * World.

Inductive task (A : Type) : Type :=
| Ret (a : A)
| Throw (e : exn)
| Now (k : Z -> task A)
| Await (X : Type) (op : io X) (k : X -> task A) (h : exn -> task A).

Arguments Throw {A} e.

Fixpoint bind {A B} (t : task A) (f : A -> task B) : task B :=
  match t with
  | Ret a => f a
  | Throw e => Throw e
  | Now k => Now (fun now => bind (k now) f)
  | Await op k h => Await op (fun x => bind (k x) f) (fun e => bind (h e) f)
  end.

(** [try: t except Exception as e: handler e] *)
Fixpoint try_except {A} (t : task A) (handler : exn -> task A) : task A :=
  match t with
  | Ret a => Ret a
  | Throw e => handler e
  | Now k => Now (fun now => try_except (k now) handler)
  | Await op k h =>
      Await op (fun x => try_except (k x) handler)
               (fun e => try_except (h e) handler)
  end.

Declare Scope task_scope.
Delimit Scope task_scope with task.

Notation "x <- t ;; k" := (bind t (fun x => k))
  (at level 61, t at next level, right associativity) : task_scope.
Notation "t ;;; k" := (bind t (fun _ => k))
  (at level 61, right associativity) : task_scope.

Local Open Scope task_scope.

Definition datetime_now : task Z := Now (fun now => Ret now).
Definition await {X} (op : io X) : task X := Await op (fun x => Ret x) Throw.

(** A value computed by a library call that may raise. *)
Definition lift {A} (o : outcome A) : task A :=
  match o with
  | Return a => Ret a
  | Raise e => Throw e
  end.

(** An awaited operation: it is counted, and it raises [e] when the fault
    plan says so, leaving the data untouched. *)
Definition awaited {X} (e : exn) (f : World -> X * World) : io X :=
  fun w =>
    let w1 := called w in
    if fault w (calls w) then (Raise e, w1)
    else let (x, w2) := f w1 in (Return x, w2).

Definition db_read {X} (f : World -> X) : task X :=
  await (awaited PyMongoError (fun w => (f w, w))).

Definition db_write (f : World -> World) : task unit :=
  await (awaited PyMongoError (fun w => (tt, f w))).

Definition bot_call (o : outgoing) : task unit :=
  await (awaited TelegramAPIError
           (fun w => (tt, set_outbox (outbox w ++ [o])%list w))).

(** Running a coroutine to completion with nothing else in between. *)
Fixpoint run {A} (t : task A) (w : World) : outcome A * World :=
  match t with
  | Ret a => (Return a, w)
  | Throw e => (Raise e, w)
  | Now k => run (k (clock w (ticks w))) (tick w)
  | Await op k h =>
      match op w with
      | (Return x, w') => run (k x) w'
      | (Raise e, w') => run (h e) w'
      end
  end.

(** Running up to the next suspension point. *)
Fixpoint advance {A} (t : task A) (w : World) : task A * World :=
  match t with
  | Now k => advance (k (clock w (ticks w))) (tick w)
  | _ => (t, w)
  end.

(** One turn of the event loop for a coroutine: a fresh coroutine runs up
    to its first [await]; a suspended one gets the result of the awaited
    operation and runs up to its next [await]. *)
Definition step {A} (t : task A) (w : World) : task A * World :=
  match t with
  | Await op k h =>
      match op w with
      | (Return x, w') => advance (k x) w'
      | (Raise e, w') => advance (h e) w'
      end
  | _ => advance t w
  end.

(** The event loop with a schedule: [schedule] lists, turn by turn, the
    index of the coroutine that runs next. *)
Fixpoint replace_nth {A} (n : nat) (x : A) (l : list A) : list A :=
  match l, n with
  | [], _ => []
  | _ :: l', O => x :: l'
  | y :: l', S n' => y :: replace_nth n' x l'
  end.

Fixpoint event_loop {A} (schedule : list nat) (pool : list (task A))
    (w : World) : list (task A) * World :=
  match schedule with
  | [] => (pool, w)
  | i :: rest =>
      match nth_error pool i with
      | Some t =>
          let (t', w') := step t w in
          event_loop rest (replace_nth i t' pool) w'
      | None => event_loop rest pool w
      end
  end.

(* ------------------------------------------------------------------ *)
(** * SecurityManager                                                 *)
(* ------------------------------------------------------------------ *)

(** Module-level settings read from the environment. *)
Record Config : Type := mkConfig {
  RATE_LIMIT_ENABLED : bool;
  SECURITY_SECRET : string;
  ADMIN_CHAT_IDS : list string
}.

(** [types.Message] and [types.CallbackQuery], as far as they are used. *)
Record Message : Type := mkMessage {
  message_id : Z;
  from_user_id : Z;
  from_user_full_name : string;
  chat : Z;
  text : option string
}.

Record CallbackQuery : Type := mkCallbackQuery {
  cq_id : string;
  cq_from_user_id : Z;
  cq_data : option string
}.

Definition is_empty (s : string) : bool :=
  match s with
  | EmptyString => true
  | _ => false
  end.

(** [hmac.compare_digest] on two [str]: both must be ASCII. *)
Fixpoint isascii (s : string) : bool :=
  match s with
  | EmptyString => true
  | String c s' => (Nat.ltb (nat_of_ascii c) 128 && isascii s')%bool
  end.

Definition compare_digest (a b : string) : outcome bool :=
  if (isascii a && isascii b)%bool then Return (String.eqb a b)
  else Raise TypeError.

Section Manager.

Variable cfg : Config.

Definition log_security_event (event_type : string) (user_id : Z)
    (details : list (string * value)) (severity : string) : task unit :=
  now <- datetime_now ;;
  let log_entry := mkSecurityLog event_type user_id details severity now in
  try_except
    (db_write (fun w =>
       set_security_logs (Mongo.insert_one log_entry (security_logs w)) w))
    (fun _ => Ret tt).

(** The loop of [send_admin_alert] over the admin ids. *)
Fixpoint alert_each (admins : list string) (message level : string)
    : task unit :=
  match admins with
  | [] => Ret tt
  | admin_id :: rest =>
      (if is_empty admin_id then Ret tt
       else try_except (bot_call (AdminAlert admin_id level message))
                       (fun _ => Ret tt)) ;;;
      alert_each rest message level
  end.

Definition send_admin_alert (message level : string) : task unit :=
  alert_each (ADMIN_CHAT_IDS cfg) message level.

(** [user.get("name", "Unknown") if user else "Unknown"] after
    [users_collection.find_one({"telegram_id": user_id})]. *)
Definition lookup_user_name (user_id : Z) : task string :=
  user <- db_read (fun w =>
            Mongo.find_one (fun u => us_telegram_id u =? user_id) (users w)) ;;
  Ret match user with
      | Some u => match us_name u with
                  | Some n => n
                  | None => "Unknown"
                  end
      | None => "Unknown"
      end.

Definition limit_key (user_id : Z) (action_type : string) : string :=
  str user_id ++ ":" ++ action_type.

Definition has_key (k : string) (d : RateLimit) : bool := String.eqb (rl_key d) k.

(** The [try] block of [check_rate_limit]. *)
Definition check_rate_limit_body (user_id : Z) (action_type : string)
    (limit window_seconds : Z) : task bool :=
  now <- datetime_now ;;
  delta <- lift (DateTime.timedelta 0 window_seconds 0) ;;
  window_start <- lift (DateTime.sub now delta) ;;
  let key := limit_key user_id action_type in
  rate_data <- db_read (fun w => Mongo.find_one (has_key key) (rate_limits w)) ;;
  match rate_data with
  | None =>
      db_write (fun w =>
        set_rate_limits
          (Mongo.insert_one (mkRateLimit key user_id action_type 1 now now)
                            (rate_limits w)) w) ;;;
      Ret true
  | Some rate_data =>
      if rl_window_start rate_data <? window_start then
        db_write (fun w =>
          set_rate_limits
            (Mongo.update_one (has_key key)
               (fun d => mkRateLimit (rl_key d) (rl_user_id d)
                           (rl_action_type d) 1 now now)
               (rate_limits w)) w) ;;;
        Ret true
      else
        let new_count := rl_count rate_data + 1 in
        db_write (fun w =>
          set_rate_limits
            (Mongo.update_one (has_key key)
               (fun d => mkRateLimit (rl_key d) (rl_user_id d)
                           (rl_action_type d) new_count
                           (rl_window_start d) now)
               (rate_limits w)) w) ;;;
        if new_count >? limit then
          log_security_event "rate_limit_exceeded" user_id
            [("action_type", VStr action_type); ("limit", VInt limit);
             ("window_seconds", VInt window_seconds);
             ("count", VInt new_count)]
            "warning" ;;;
          (if new_count >? limit * 2 then
             user_name <- lookup_user_name user_id ;;
             send_admin_alert
               ("Rate limit significantly exceeded:" ++ nl ++
                "User: " ++ user_name ++ " (ID: " ++ str user_id ++ ")" ++ nl ++
                "Action: " ++ action_type ++ nl ++
                "Count: " ++ str new_count ++ "/" ++ str limit ++ " in " ++
                str window_seconds ++ " seconds")
               "warning"
           else Ret tt) ;;;
          Ret false
        else Ret true
  end.

Definition check_rate_limit (user_id : Z) (action_type : string)
    (limit window_seconds : Z) : task bool :=
  if negb (RATE_LIMIT_ENABLED cfg) then Ret true
  else
    try_except (check_rate_limit_body user_id action_type limit window_seconds)
               (fun _ => Ret true).

Definition blocked_as (user_id : Z) (b : Block) : bool := bl_user_id b =? user_id.

Definition is_user_blocked (user_id : Z) : task bool :=
  try_except
    (blocked <- db_read (fun w =>
                  Mongo.find_one (blocked_as user_id) (blocked_users w)) ;;
     Ret (is_some blocked))
    (fun _ => Ret false).

(** [now + timedelta(days=duration_days) if duration_days else None] *)
Definition block_expiry (now : Z) (duration_days : option Z) : outcome (option Z) :=
  match duration_days with
  | None => Return None
  | Some days =>
      if days =? 0 then Return None
      else
        match DateTime.timedelta days 0 0 with
        | Raise e => Raise e
        | Return delta =>
            match DateTime.add now delta with
            | Raise e => Raise e
            | Return t => Return (Some t)
            end
        end
  end.

Definition opt_value (o : option Z) : value :=
  match o with
  | Some n => VInt n
  | None => VNone
  end.

Definition days_given (duration_days : option Z) : option Z :=
  match duration_days with
  | Some days => if days =? 0 then None else Some days
  | None => None
  end.

Definition block_user (user_id : Z) (reason : string) (admin_id : option Z)
    (duration_days : option Z) : task bool :=
  try_except
    (now <- datetime_now ;;
     expiry <- lift (block_expiry now duration_days) ;;
     let block_data := mkBlock user_id reason now admin_id expiry in
     existing <- db_read (fun w =>
                   Mongo.find_one (blocked_as user_id) (blocked_users w)) ;;
     match existing with
     | Some _ =>
         db_write (fun w =>
           set_blocked_users
             (Mongo.update_one (blocked_as user_id) (fun _ => block_data)
                               (blocked_users w)) w)
     | None =>
         db_write (fun w =>
           set_blocked_users (Mongo.insert_one block_data (blocked_users w)) w)
     end ;;;
     log_security_event "user_blocked" user_id
       [("reason", VStr reason); ("admin_id", opt_value admin_id);
        ("duration_days", opt_value duration_days)]
       "warning" ;;;
     user_name <- lookup_user_name user_id ;;
     send_admin_alert
       ("User blocked from bot:" ++ nl ++
        "User: " ++ user_name ++ " (ID: " ++ str user_id ++ ")" ++ nl ++
        "Reason: " ++ reason ++ nl ++
        "Duration: " ++ match days_given duration_days with
                        | Some days => str days ++ " days"
                        | None => "Permanent"
                        end)
       "warning" ;;;
     try_except
       (bot_call (SendMessage (ChatInt user_id)
          ("You have been blocked from using this bot" ++
           match days_given duration_days with
           | Some days => " for " ++ str days ++ " days"
           | None => ""
           end ++ "." ++ nl ++
           "Reason: " ++ reason ++ nl ++ nl ++
           "If you believe this is in error, please contact the club administrators.")))
       (fun _ => Ret tt) ;;;
     Ret true)
    (fun _ => Ret false).

Definition unblock_user (user_id : Z) (admin_id : option Z) : task bool :=
  try_except
    (deleted_count <- await (awaited PyMongoError (fun w =>
        let (c, n) := Mongo.delete_one (blocked_as user_id) (blocked_users w) in
        (n, set_blocked_users c w))) ;;
     if deleted_count =? 0 then Ret false
     else
       log_security_event "user_unblocked" user_id
         [("admin_id", opt_value admin_id)] "info" ;;;
       user_name <- lookup_user_name user_id ;;
       send_admin_alert
         ("User unblocked:" ++ nl ++
          "User: " ++ user_name ++ " (ID: " ++ str user_id ++ ")")
         "info" ;;;
       try_except
         (bot_call (SendMessage (ChatInt user_id)
            "You have been unblocked and can now use the bot again."))
         (fun _ => Ret tt) ;;;
       Ret true)
    (fun _ => Ret false).

(** [{"expiry": {"$lt": now, "$ne": None}}] *)
Definition expired_at (now : Z) (b : Block) : bool :=
  match bl_expiry b with
  | Some e => e <? now
  | None => false
  end.

Fixpoint unblock_each (expired : list Block) : task unit :=
  match expired with
  | [] => Ret tt
  | block :: rest =>
      unblock_user (bl_user_id block) None ;;; unblock_each rest
  end.

Definition cleanup_expired_blocks : task Z :=
  try_except
    (now <- datetime_now ;;
     expired <- db_read (fun w =>
                  Mongo.find_all (expired_at now) (blocked_users w)) ;;
     unblock_each expired ;;;
     Ret (Z.of_nat (List.length expired)))
    (fun _ => Ret 0).

Definition generate_hmac (data : string) : string :=
  let key := Sha256.encode (SECURITY_SECRET cfg) in
  let message := Sha256.encode data in
  Sha256.hex (Sha256.hmac key message).

Definition verify_hmac (data signature : string) : outcome bool :=
  let expected := generate_hmac data in
  compare_digest expected signature.

(** [message.text if message.text else "[NO TEXT]"] *)
Definition text_or_placeholder (message : Message) : string :=
  match text message with
  | Some (String _ _ as t) => t
  | _ => "[NO TEXT]"
  end.

Definition is_suspicious_since (user_id cutoff : Z) (e : SecurityLog) : bool :=
  (String.eqb (sl_event_type e) "suspicious_message"
   && (sl_user_id e =? user_id) && (sl_timestamp e >? cutoff))%bool.

Definition process_suspicious_message (message : Message) (reason : string)
    : task unit :=
  let user_id := from_user_id message in
  let user_name := from_user_full_name message in
  let chat_id := chat message in
  log_security_event "suspicious_message" user_id
    [("message_id", VInt (message_id message)); ("chat_id", VInt chat_id);
     ("text", VStr (text_or_placeholder message)); ("reason", VStr reason)]
    "warning" ;;;
  now <- datetime_now ;;
  day <- lift (DateTime.timedelta 0 0 24) ;;
  cutoff <- lift (DateTime.sub now day) ;;
  recent_suspicious <- db_read (fun w =>
     Mongo.count_documents (is_suspicious_since user_id cutoff)
                           (security_logs w)) ;;
  (if recent_suspicious >=? 3 then
     block_user user_id
       ("Automated block: Multiple suspicious messages (" ++ reason ++ ")")
       None (Some 1) ;;;
     try_except (bot_call (DeleteMessage chat_id (message_id message)))
                (fun _ => Ret tt)
   else Ret tt) ;;;
  send_admin_alert
    ("Suspicious message detected:" ++ nl ++
     "User: " ++ user_name ++ " (ID: " ++ str user_id ++ ")" ++ nl ++
     "Reason: " ++ reason ++ nl ++
     "Content: " ++ text_or_placeholder message ++ nl ++
     "Recent suspicious activity count: " ++ str recent_suspicious)
    "warning".

(* ------------------------------------------------------------------ *)
(** * SecurityMiddleware                                              *)
(* ------------------------------------------------------------------ *)

Definition touch_last_activity (user_id : Z) : task unit :=
  try_except
    (now <- datetime_now ;;
     db_write (fun w =>
       set_users
         (Mongo.update_one (fun u => us_telegram_id u =? user_id)
            (fun u => mkUser (us_telegram_id u) (us_name u) (Some now))
            (users w)) w))
    (fun _ => Ret tt).

Definition on_pre_process_message (message : Message) : task unit :=
  let user_id := from_user_id message in
  blocked <- is_user_blocked user_id ;;
  if blocked then
    log_security_event "blocked_user_attempt" user_id
      [("message_id", VInt (message_id message))] "info" ;;;
    bot_call (Reply (message_id message)
      "You are currently blocked from using this bot. Please contact the club administrators if you believe this is in error.") ;;;
    Throw CancelHandler
  else
    allowed <- check_rate_limit user_id "message" 30 60 ;;
    if negb allowed then
      bot_call (Reply (message_id message)
        "You're sending messages too quickly. Please slow down.") ;;;
      Throw CancelHandler
    else
      match text message with
      | Some (String _ _ as t) =>
          let (is_attack, pattern) := detect_potential_attack t in
          if is_attack then
            process_suspicious_message message
              ("Potential attack pattern detected: " ++ pattern) ;;;
            bot_call (Reply (message_id message)
              "Your message contains potentially harmful content and will not be processed.") ;;;
            Throw CancelHandler
          else touch_last_activity user_id
      | _ => touch_last_activity user_id
      end.

Definition on_pre_process_callback_query (callback_query : CallbackQuery)
    : task unit :=
  let user_id := cq_from_user_id callback_query in
  blocked <- is_user_blocked user_id ;;
  if blocked then
    log_security_event "blocked_user_callback_attempt" user_id
      [("callback_data", match cq_data callback_query with
                         | Some d => VStr d
                         | None => VNone
                         end)] "info" ;;;
    bot_call (Answer (cq_id callback_query)
      "You are currently blocked from using this bot.") ;;;
    Throw CancelHandler
  else
    allowed <- check_rate_limit user_id "callback" 20 60 ;;
    if negb allowed then
      bot_call (Answer (cq_id callback_query)
        "You're interacting too quickly. Please slow down.") ;;;
      Throw CancelHandler
    else touch_last_activity user_id.

End Manager.

(** ** Sequential execution of several calls *)



(** No awaited operation ever fails. *)
Definition healthy (w : World) : Prop := forall n, fault w n = false.

(** [w'] has the same collections and clock as [w]: only the count of
    awaited operations and the outbox may differ. *)
Definition same_data (w w' : World) : Prop :=
  clock w' = clock w /\ ticks w' = ticks w /\ fault w' = fault w /\
  rate_limits w' = rate_limits w /\ blocked_users w' = blocked_users w /\
  security_logs w' = security_logs w /\ users w' = users w.

(** ** Vocabulary for the rate limiter *)

(** The stored counter of [(user_id, action_type)]: what [find_one] gives. *)
Definition counter (user_id : Z) (action_type : string) (w : World) : option RateLimit :=
  Mongo.find_one (has_key (limit_key user_id action_type)) (rate_limits w).

(** The instant [now] is one at which the window arithmetic of
    [check_rate_limit] stays within [datetime] range. *)
Definition timely_at (window_seconds now : Z) : Prop :=
  0 <= window_seconds /\
  window_seconds * DateTime.US_PER_SECOND <= now /\ now <= DateTime.max.

(** The counter written by the first call, by a call after the window
    has expired, and by a call within the window. *)
Definition first_counter (user_id : Z) (action_type : string) (now : Z) : RateLimit :=
  mkRateLimit (limit_key user_id action_type) user_id action_type 1 now now.

Definition reset_counter (now : Z) (d : RateLimit) : RateLimit :=
  mkRateLimit (rl_key d) (rl_user_id d) (rl_action_type d) 1 now now.

Definition bump_counter (now new_count : Z) (d : RateLimit) : RateLimit :=
  mkRateLimit (rl_key d) (rl_user_id d) (rl_action_type d) new_count
              (rl_window_start d) now.

(** ** Vocabulary for the block list and the audit log *)




(** Running [t] leaves the observation [f] of the world as it was. *)
Definition keeps {X A} (f : World -> X) (t : task A) : Prop :=
  forall w, f (snd (run t w)) = f w.




(** Running [t] maintains the property [I] of the world. *)
Definition preserves {A} (I : World -> Prop) (t : task A) : Prop :=
  forall w, I w -> I (snd (run t w)).

(** The operations of the module, as the bot and its admins invoke them. *)
Inductive request : Type :=
| DoBlock (user_id : Z) (reason : string) (admin_id duration_days : option Z)
| DoUnblock (user_id : Z) (admin_id : option Z)
| DoCleanup
| DoCheckRateLimit (user_id : Z) (action_type : string) (limit window_seconds : Z)
| DoSuspicious (message : Message) (reason : string)
| DoMessage (message : Message)
| DoCallback (callback_query : CallbackQuery).

(** Serving one request to completion. *)
Definition serve (cfg : Config) (r : request) (w : World) : World :=
  match r with
  | DoBlock user_id reason admin_id duration_days =>
      snd (run (block_user cfg user_id reason admin_id duration_days) w)
  | DoUnblock user_id admin_id => snd (run (unblock_user cfg user_id admin_id) w)
  | DoCleanup => snd (run (cleanup_expired_blocks cfg) w)
  | DoCheckRateLimit user_id action_type limit window_seconds =>
      snd (run (check_rate_limit cfg user_id action_type limit window_seconds) w)
  | DoSuspicious message reason =>
      snd (run (process_suspicious_message cfg message reason) w)
  | DoMessage message => snd (run (on_pre_process_message cfg message) w)
  | DoCallback callback_query =>
      snd (run (on_pre_process_callback_query cfg callback_query) w)
  end.

(** Serving requests one after the other. *)
Definition serve_all (cfg : Config) (rs : list request) (w : World) : World :=
  fold_left (fun w r => serve cfg r w) rs w.



(** The message has no text in which an attack pattern is found. *)
Definition harmless (message : Message) : Prop :=
  forall t, text message = Some t -> fst (detect_potential_attack t) = false.

(* ------------------------------------------------------------------ *)
(** * SecurityManager.sanitize_input                                  *)
(* ------------------------------------------------------------------ *)

(** [s.replace(old, new)] for a one-character [old]. *)
Fixpoint replace (old : ascii) (new : string) (s : string) : string :=
  match s with
  | EmptyString => EmptyString
  | String c s' =>
      if Ascii.eqb c old then new ++ replace old new s'
      else String c (replace old new s')
  end.

(** [SecurityManager.sanitize_input]. *)
Definition sanitize_input (value : option string) : string :=
  match value with
  | Some (String _ _ as value) =>
      let sanitized := replace ">" "&gt;" (replace "<" "&lt;" value) in
      replace "'" "&#x27;"
        (replace dquote "&quot;" (replace "&" "&amp;" sanitized))
  | _ => ""
  end.

(** ** Vocabulary for the properties of the whole module *)

(** What [sanitize_input] makes of one character. *)
Definition escaped (c : ascii) : string :=
  if Ascii.eqb c "<" then "&amp;lt;"
  else if Ascii.eqb c ">" then "&amp;gt;"
  else if Ascii.eqb c "&" then "&amp;"
  else if Ascii.eqb c dquote then "&quot;"
  else if Ascii.eqb c "'" then "&#x27;"
  else String c EmptyString.

Fixpoint escape_all (s : string) : string :=
  match s with
  | EmptyString => EmptyString
  | String c s' => escaped c ++ escape_all s'
  end.

(** The character [c] occurs in [s]. *)
Fixpoint occurs (c : ascii) (s : string) : bool :=
  match s with
  | EmptyString => false
  | String x s' => (Ascii.eqb x c || occurs c s')%bool
  end.

(** The characters [sanitize_input] is there to remove. *)
Definition unsafe (c : ascii) : bool :=
  (Ascii.eqb c "<" || Ascii.eqb c ">" || Ascii.eqb c dquote || Ascii.eqb c "'")%bool.

(** The rate counters are well formed: one counter per key, and every
    count at least 1. *)
Definition sound_counters (w : World) : Prop :=
  NoDup (map rl_key (rate_limits w)) /\
  Forall (fun d => 1 <= rl_count d) (rate_limits w).

(** Running [t] only appends to the list observed by [proj]. *)
Definition extends {D A} (proj : World -> list D) (t : task A) : Prop :=
  forall w, exists added, proj (snd (run t w)) = (proj w ++ added)%list.

(** The keys of the rate counters, in insertion order. *)
Definition counter_keys (w : World) : list string := map rl_key (rate_limits w).


(** The coroutine [t] always ends by raising. *)
Definition raises {A} (t : task A) : Prop :=
  forall w, exists e, fst (run t w) = Raise e.

(** The audit entry and the notice for a message of a blocked user. *)
Definition attempt_event (message : Message) (now : Z) : SecurityLog :=
  mkSecurityLog "blocked_user_attempt" (from_user_id message)
    [("message_id", VInt (message_id message))] "info" now.

Definition blocked_notice : string :=
  "You are currently blocked from using this bot. Please contact the club administrators if you believe this is in error.".

(** The admins [send_admin_alert] tries to reach: the ids that are not
    empty strings. *)
Definition recipients (cfg : Config) : list string :=
  filter (fun admin_id => negb (is_empty admin_id)) (ADMIN_CHAT_IDS cfg).

(** Those of [attempts] whose send does not fail, when the sends are the
    awaited operations number [n], [n+1], ... *)
Fixpoint reached (failing : nat -> bool) (n : nat) (attempts : list string)
    : list string :=
  match attempts with
  | [] => []
  | admin_id :: rest =>
      if failing n then reached failing (S n) rest
      else admin_id :: reached failing (S n) rest
  end.

(** The decision of [check_rate_limit] when nothing fails: a first call
    and a call after the window has expired are allowed, a call within
    the window is allowed while the new count stays within the limit. *)
Definition within_quota (stored : option RateLimit) (now limit window_seconds : Z)
    : bool :=
  match stored with
  | None => true
  | Some d =>
      (rl_window_start d <? now - window_seconds * DateTime.US_PER_SECOND)
      || (rl_count d + 1 <=? limit)
  end.

(** [users_collection.update_one({"telegram_id": user_id},
    {"$set": {"last_activity": now}})] *)
Definition seen_at (user_id now : Z) (c : list User) : list User :=
  Mongo.update_one (fun u => us_telegram_id u =? user_id)
    (fun u => mkUser (us_telegram_id u) (us_name u) (Some now)) c.

(** Every character of [s] satisfies [f]. *)
Fixpoint all_chars (f : ascii -> bool) (s : string) : bool :=
  match s with
  | EmptyString => true
  | String c s' => (f c && all_chars f s')%bool
  end.

(** A lowercase hexadecimal digit. *)
Definition is_hex (c : ascii) : bool :=
  (Re.is_digit c || Re.between 97 102 (Re.code c))%bool.

(** [s] with its letters A-Z in lower case. *)
Fixpoint lowered (s : string) : string :=
  match s with
  | EmptyString => EmptyString
  | String c s' => String (Re.lower c) (lowered s')
  end.

(** The attack patterns that are plain words. *)
Definition literal_attacks : list string :=
  ["javascript:"; "onload="; "onerror="; "%3Cscript"].



(** [v] is [body], possibly followed by one line feed. *)
Definition line_of (body v : string) : Prop := v = body \/ v = body ++ nl.

(** [n] respects the upper bound of a repetition ([None]: no bound). *)
Definition at_most (hi : option nat) (n : nat) : Prop :=
  match hi with
  | Some h => (n <= h)%nat
  | None => True
  end.

(* ------------------------------------------------------------------ *)
(** * Sample data used in the examples                                *)
(* ------------------------------------------------------------------ *)

Module Sample.

Definition config : Config := mkConfig true "secret" ["1001"; ""; "1002"].


(** 2025-01-01 00:00:00 *)
Definition t0 : Z := 739251 * DateTime.US_PER_DAY.

(** A signature that is not ASCII: the single character U+00E9. *)
Definition e_acute : string := String (ascii_of_nat 233) EmptyString.

(** An empty database, no faults, the clock read every 0.3 s. *)
Definition world : World :=
  mkWorld (fun n => t0 + Z.of_nat n * 300000) 0 (fun _ => false) 0
          [] [] [] [] [].

(** Actor 42 has sent [count] messages in the window opened at [t0]. *)
Definition counter_42 (count : Z) : RateLimit :=
  mkRateLimit "42:message" 42 "message" count t0 (t0 + 10 * DateTime.US_PER_SECOND).

(** Exactly 60 s after the window of a counter at 30 was opened. *)
Definition boundary_world : World :=
  mkWorld (fun _ => t0 + 60 * DateTime.US_PER_SECOND) 0 (fun _ => false) 0
          [counter_42 30] [] [] [] [].

(** One second into the window, the counter at 29, the clock read every
    millisecond. *)
Definition busy_world : World :=
  mkWorld (fun n => t0 + DateTime.US_PER_SECOND + Z.of_nat n * 1000) 0
          (fun _ => false) 0 [counter_42 29] [] [] [] [].

Definition attack (n : Z) : Message :=
  mkMessage n 7 "Eve" 7 (Some "javascript:doEvil()").


Definition block_7 (now : Z) : Block :=
  mkBlock 7 "spam" now (Some 1001) None.


(** Actor 7 is blocked and every awaited operation fails. *)
Definition blackout : World :=
  mkWorld (fun n => t0 + Z.of_nat n * 300000) 0 (fun _ => true) 0
          [] [block_7 t0] [] [] [].

End Sample.

(* ================================================================== *)
(** * Properties                                                      *)
(* ================================================================== *)

(** ** Input validation *)

Section ValidationFacts.

Lemma validate_input_falsy (input_type : string) (value : option string) :
  truthy value = false -> validate_input input_type value = false.
Proof.
  destruct value as [[|c v]|]; simpl; intros H; try reflexivity; discriminate.
Qed.

Lemma validate_input_no_rule (input_type : string) (value : option string) :
  truthy value = true -> get patterns input_type = None ->
  validate_input input_type value = true.
Proof.
  destruct value as [[|c v]|]; simpl; intros H G; try discriminate.
  now rewrite G.
Qed.

Lemma validate_input_rule (input_type : string) (v : string) (p : Re.pattern) :
  truthy (Some v) = true -> get patterns input_type = Some p ->
  validate_input input_type (Some v) = is_some (Re.re_match p v).
Proof.
  destruct v as [|c v]; simpl; intros H G; try discriminate.
  now rewrite G.
Qed.

End ValidationFacts.

(** C10. [validate_input] is false for an absent or empty value whatever
    the field type, true for a non-empty value of a field type without
    rule, and otherwise says whether the rule of the field type matches
    the value; "3k" is a rank and "40k" is not, "2025-03-15" is a date and
    "15-03-2025" is not. *)
Theorem validate_input_spec :
  (forall input_type value,
     truthy value = false -> validate_input input_type value = false) /\
  (forall input_type value,
     truthy value = true -> get patterns input_type = None ->
     validate_input input_type value = true) /\
  (forall input_type v p,
     truthy (Some v) = true -> get patterns input_type = Some p ->
     validate_input input_type (Some v) = is_some (Re.re_match p v)) /\
  validate_input "rank" (Some "3k") = true /\
  validate_input "rank" (Some "40k") = false /\
  validate_input "date" (Some "2025-03-15") = true /\
  validate_input "date" (Some "15-03-2025") = false.
Proof.
  split; [exact validate_input_falsy|].
  split; [exact validate_input_no_rule|].
  split; [exact validate_input_rule|].
  repeat split; vm_compute; reflexivity.
Qed.

Lemma validate_input_spec_witness :
  validate_input "rank" None = false /\
  validate_input "rank" (Some "") = false /\
  validate_input "nickname" (Some "40k") = true /\
  validate_input "time" (Some "10:30") = true.
Proof.
  destruct validate_input_spec as (Hfalsy & Hnone & Hrule & _).
  split; [apply Hfalsy; reflexivity|].
  split; [apply Hfalsy; reflexivity|].
  split; [apply Hnone; reflexivity|].
  rewrite (Hrule "time" "10:30" _ eq_refl eq_refl). vm_compute. reflexivity.
Defined.

(** ** Attack detection *)

Section DetectionFacts.

Lemma first_match_found (pats : list Re.pattern) (value m : string) :
  first_match pats value = (true, m) ->
  exists before p after,
    pats = (before ++ p :: after)%list /\
    Forall (no_match value) before /\
    Re.re_search p value = Some m.
Proof.
  induction pats as [|q pats IH]; simpl; intros H; [discriminate|].
  destruct (Re.re_search q value) as [m'|] eqn:E.
  - inversion H; subst m'. exists [], q, pats. repeat split; auto.
  - destruct (IH H) as (before & p & after & -> & Hb & Hp).
    exists (q :: before), p, after. repeat split; auto.
Qed.

Lemma first_match_none (pats : list Re.pattern) (value : string) :
  fst (first_match pats value) = false ->
  first_match pats value = (false, "") /\ Forall (no_match value) pats.
Proof.
  induction pats as [|q pats IH]; simpl; intros H; [split; auto|].
  destruct (Re.re_search q value) as [m'|] eqn:E; [discriminate|].
  destruct (IH H) as [H1 H2]. split; auto.
Qed.

End DetectionFacts.

(** C9. [detect_potential_attack] goes through [attack_patterns] in order
    and answers with the match of the first pattern that matches; it is a
    function of the text alone.  A script tag, a [javascript:] URI and a
    quoted boolean SQL fragment are reported, a plain sentence is not. *)
Theorem detect_potential_attack_first_match :
  (forall value m,
     detect_potential_attack value = (true, m) ->
     exists before p after,
       attack_patterns = (before ++ p :: after)%list /\
       Forall (no_match value) before /\
       Re.re_search p value = Some m) /\
  (forall value,
     fst (detect_potential_attack value) = false ->
     detect_potential_attack value = (false, "") /\
     (value = "" \/ Forall (no_match value) attack_patterns)) /\
  fst (detect_potential_attack "<script>alert(1)</script>") = true /\
  fst (detect_potential_attack "javascript:doEvil()") = true /\
  fst (detect_potential_attack "' OR '1'='1") = true /\
  fst (detect_potential_attack "Hello, see you Tuesday") = false.
Proof.
  split.
  { intros value m H. destruct value as [|c v]; [discriminate|].
    now apply first_match_found. }
  split.
  { intros value H. destruct value as [|c v]; [split; auto|].
    destruct (first_match_none _ _ H) as [H1 H2]. split; auto. }
  repeat split; vm_compute; reflexivity.
Qed.

Lemma detect_potential_attack_first_match_witness :
  exists before p after,
    attack_patterns = (before ++ p :: after)%list /\
    Forall (no_match "x' or 'a'='a <script></script>") before /\
    Re.re_search p "x' or 'a'='a <script></script>" = Some "<script></script>".
Proof.
  destruct detect_potential_attack_first_match as (Hfirst & _).
  apply Hfirst. vm_compute. reflexivity.
Defined.

(** ** HMAC signatures *)

(** The implementation agrees with the published test vectors:
    SHA-256 of "abc" (FIPS 180-4) and HMAC-SHA-256 test case 2 of RFC 4231. *)
Example sha256_abc :
  Sha256.hex (Sha256.digest (Sha256.encode "abc")) =
  "ba7816bf8f01cfea414140de5dae2223b00361a396177a9cb410ff61f20015ad".
Proof. vm_compute. reflexivity. Qed.

Example hmac_sha256_rfc4231_2 :
  Sha256.hex (Sha256.hmac (Sha256.encode "Jefe")
                          (Sha256.encode "what do ya want for nothing?")) =
  "5bdcc146bf60754e6a042426089575c75a003f089d2739839dec58b964ec3843".
Proof. vm_compute. reflexivity. Qed.

Section HmacFacts.

Lemma hexdigit_ascii (n : Z) : Nat.ltb (nat_of_ascii (Sha256.hexdigit n)) 128 = true.
Proof.
  unfold Sha256.hexdigit.
  destruct (n mod 16) as [|p|p]; try reflexivity;
    do 4 (try destruct p as [p|p|]; try reflexivity).
Qed.

Lemma hex_isascii (bs : list Z) : isascii (Sha256.hex bs) = true.
Proof.
  induction bs as [|b bs IH]; simpl; [reflexivity|].
  now rewrite !hexdigit_ascii, IH.
Qed.

Lemma generate_hmac_isascii (cfg : Config) (data : string) :
  isascii (generate_hmac cfg data) = true.
Proof. apply hex_isascii. Qed.

End HmacFacts.

(** C8, as the code has it.  A signature made by [generate_hmac] verifies;
    any other ASCII signature is rejected; a signature with a non-ASCII
    character makes [hmac.compare_digest] raise [TypeError]. *)
Theorem verify_hmac_spec (cfg : Config) (data : string) :
  verify_hmac cfg data (generate_hmac cfg data) = Return true /\
  (forall s, isascii s = true -> s <> generate_hmac cfg data ->
             verify_hmac cfg data s = Return false) /\
  (forall s, isascii s = false -> verify_hmac cfg data s = Raise TypeError).
Proof.
  unfold verify_hmac, compare_digest.
  rewrite generate_hmac_isascii. simpl.
  split; [now rewrite String.eqb_refl|].
  split; intros s Hs.
  - intros Hne. rewrite Hs. f_equal.
    apply String.eqb_neq. congruence.
  - now rewrite Hs.
Qed.

Lemma verify_hmac_spec_witness :
  verify_hmac Sample.config "test_security_data"
    "5be8edbb75f9d2e0735e0488713851e439b924bf4a93ecb01eaec326de8d9b31"
    = Return true /\
  verify_hmac Sample.config "test_security_data"
    "5be8edbb75f9d2e0735e0488713851e439b924bf4a93ecb01eaec326de8d9b30"
    = Return false.
Proof.
  destruct (verify_hmac_spec Sample.config "test_security_data") as (Hok & Hbad & _).
  split.
  - exact Hok.
  - apply Hbad; [reflexivity|]. vm_compute. discriminate.
Defined.

(** C8, counterexample.  The one-character signature U+00E9 differs from the HMAC of
    "test_security_data", yet [verify_hmac] does not return false on it:
    it raises [TypeError]. *)
Lemma verify_hmac_non_ascii_raises :
  Sample.e_acute <> generate_hmac Sample.config "test_security_data" /\
  verify_hmac Sample.config "test_security_data" Sample.e_acute = Raise TypeError /\
  verify_hmac Sample.config "test_security_data" Sample.e_acute <> Return false.
Proof.
  split; [vm_compute; discriminate|].
  split; [vm_compute; reflexivity|vm_compute; discriminate].
Qed.

(** ** The runtime *)

Section RunFacts.

Lemma run_bind {A B} (t : task A) (f : A -> task B) (w : World) :
  run (bind t f) w =
  match run t w with
  | (Return a, w') => run (f a) w'
  | (Raise e, w') => (Raise e, w')
  end.
Proof.
  revert w. induction t as [a|e|k IH|X op k IHk h IHh]; intros w; simpl.
  - reflexivity.
  - reflexivity.
  - apply IH.
  - destruct (op w) as [[x|e] w']; [apply IHk|apply IHh].
Qed.

Lemma run_try_except {A} (t : task A) (handler : exn -> task A) (w : World) :
  run (try_except t handler) w =
  match run t w with
  | (Return a, w') => (Return a, w')
  | (Raise e, w') => run (handler e) w'
  end.
Proof.
  revert w. induction t as [a|e|k IH|X op k IHk h IHh]; intros w; simpl.
  - reflexivity.
  - reflexivity.
  - apply IH.
  - destruct (op w) as [[x|e] w']; [apply IHk|apply IHh].
Qed.

Lemma run_advance {A} (t : task A) (w : World) :
  run (fst (advance t w)) (snd (advance t w)) = run t w.
Proof.
  revert w. induction t as [a|e|k IH|X op k IHk h IHh]; intros w; simpl;
    try reflexivity.
  apply IH.
Qed.

(** A turn of the event loop does part of what [run] does. *)
Lemma run_step {A} (t : task A) (w : World) :
  run (fst (step t w)) (snd (step t w)) = run t w.
Proof.
  destruct t as [a|e|k|X op k h]; try apply run_advance.
  simpl. destruct (op w) as [[x|e] w']; apply run_advance.
Qed.

(** A coroutine that is alone in the loop ends up as [run] says, however
    many turns it has been given so far. *)
Lemma event_loop_alone {A} (schedule : list nat) (t : task A) (w : World) :
  Forall (fun i => i = O) schedule ->
  exists t',
    fst (event_loop schedule [t] w) = [t'] /\
    run t' (snd (event_loop schedule [t] w)) = run t w.
Proof.
  intros Hs. revert t w.
  induction Hs as [|i schedule Hi Hs IH]; intros t w; cbn [event_loop].
  - exists t. split; reflexivity.
  - subst i. cbn [nth_error replace_nth].
    pose proof (run_step t w) as Hstep.
    destruct (step t w) as [t1 w1]. cbn [fst snd] in Hstep.
    destruct (IH t1 w1) as (t' & Hp & Hr). exists t'.
    split; [exact Hp|]. now rewrite Hr.
Qed.

Lemma run_db_read {X} (f : World -> X) (w : World) :
  run (db_read f) w =
  if fault w (calls w) then (Raise PyMongoError, called w)
  else (Return (f (called w)), called w).
Proof. unfold db_read, await, awaited. simpl. now destruct (fault w (calls w)). Qed.

Lemma run_db_write (f : World -> World) (w : World) :
  run (db_write f) w =
  if fault w (calls w) then (Raise PyMongoError, called w)
  else (Return tt, f (called w)).
Proof. unfold db_write, await, awaited. simpl. now destruct (fault w (calls w)). Qed.

Lemma run_bot_call (o : outgoing) (w : World) :
  run (bot_call o) w =
  if fault w (calls w) then (Raise TelegramAPIError, called w)
  else (Return tt, set_outbox (outbox (called w) ++ [o])%list (called w)).
Proof. unfold bot_call, await, awaited. simpl. now destruct (fault w (calls w)). Qed.

Lemma same_data_refl (w : World) : same_data w w.
Proof. unfold same_data; tauto. Qed.

Lemma same_data_trans (w1 w2 w3 : World) :
  same_data w1 w2 -> same_data w2 w3 -> same_data w1 w3.
Proof. unfold same_data; intuition congruence. Qed.

Lemma same_data_called (w : World) : same_data w (called w).
Proof. unfold same_data; simpl; tauto. Qed.

Lemma same_data_outbox (w : World) (o : list outgoing) : same_data w (set_outbox o w).
Proof. unfold same_data; simpl; tauto. Qed.

Variable cfg : Config.

Lemma run_log_security_event (event_type : string) (user_id : Z)
    (details : list (string * value)) (severity : string) (w : World) :
  run (log_security_event event_type user_id details severity) w =
  (Return tt,
   if fault w (calls w) then called (tick w)
   else set_security_logs
          (security_logs w ++
           [mkSecurityLog event_type user_id details severity (clock w (ticks w))])%list
          (called (tick w))).
Proof.
  unfold log_security_event. simpl. unfold awaited. simpl.
  now destruct (fault w (calls w)).
Qed.

Lemma run_alert_each (admins : list string) (message level : string) (w : World) :
  exists w', run (alert_each admins message level) w = (Return tt, w') /\
             same_data w w'.
Proof.
  revert w. induction admins as [|admin_id rest IH]; intros w; cbn [alert_each].
  - exists w. split; [reflexivity|apply same_data_refl].
  - rewrite run_bind. destruct (is_empty admin_id).
    + simpl. apply IH.
    + rewrite run_try_except, run_bot_call.
      destruct (fault w (calls w)); simpl;
        match goal with |- context [run _ ?w1] =>
          destruct (IH w1) as (w' & -> & Hs) end;
        exists w'; (split; [reflexivity|]);
        (eapply same_data_trans; [|exact Hs]).
      * apply same_data_called.
      * eapply same_data_trans; [apply same_data_called|apply same_data_outbox].
Qed.

Lemma run_send_admin_alert (message level : string) (w : World) :
  exists w', run (send_admin_alert cfg message level) w = (Return tt, w') /\
             same_data w w'.
Proof. apply run_alert_each. Qed.

End RunFacts.

(** ** The rate limiter *)

Section MongoFacts.
Variable D : Type.
Variable q : D -> bool.



End MongoFacts.

Lemma timedelta_seconds (W : Z) :
  0 <= W -> W * DateTime.US_PER_SECOND <= DateTime.max ->
  DateTime.timedelta 0 W 0 = Return (W * DateTime.US_PER_SECOND).
Proof.
  intros H0 H1. unfold DateTime.timedelta.
  replace (0 * DateTime.US_PER_DAY + W * DateTime.US_PER_SECOND
           + 0 * 3600 * DateTime.US_PER_SECOND)
    with (W * DateTime.US_PER_SECOND) by ring.
  assert (Hd : 0 <= W * DateTime.US_PER_SECOND / DateTime.US_PER_DAY <= 999999999).
  { split.
    - apply Z.div_pos; [|reflexivity]. unfold DateTime.US_PER_SECOND. lia.
    - apply Z.div_le_upper_bound; [reflexivity|].
      unfold DateTime.max, DateTime.US_PER_DAY, DateTime.US_PER_SECOND in *. lia. }
  rewrite Z.abs_eq by lia.
  destruct (Z.leb_spec (W * DateTime.US_PER_SECOND / DateTime.US_PER_DAY) 999999999);
    [reflexivity|lia].
Qed.

Lemma sub_in_range (t d : Z) :
  0 <= t - d -> t - d <= DateTime.max -> DateTime.sub t d = Return (t - d).
Proof.
  intros H0 H1. unfold DateTime.sub, DateTime.in_range.
  destruct (Z.leb_spec 0 (t - d)); [|lia].
  destruct (Z.leb_spec (t - d) DateTime.max); [reflexivity|lia].
Qed.

Section CheckFacts.
Variable cfg : Config.
Hypothesis enabled : RATE_LIMIT_ENABLED cfg = true.

Variables (user_id : Z) (action_type : string) (limit window_seconds : Z).

Let key := limit_key user_id action_type.
Let span := window_seconds * DateTime.US_PER_SECOND.

Let timely (w : World) : Prop := timely_at window_seconds (clock w (ticks w)).

Lemma check_prologue (w : World) (k : Z -> Z -> task bool) :
  timely w ->
  run (now <- datetime_now ;;
       delta <- lift (DateTime.timedelta 0 window_seconds 0) ;;
       window_start <- lift (DateTime.sub now delta) ;;
       k now window_start)%task w =
  run (k (clock w (ticks w)) (clock w (ticks w) - span)) (tick w).
Proof.
  intros (H0 & H1 & H2). cbn [bind datetime_now run].
  unfold span in *.
  assert (H3 : window_seconds * DateTime.US_PER_SECOND <= DateTime.max)
    by (eapply Z.le_trans; eassumption).
  rewrite timedelta_seconds by assumption. cbn [lift bind].
  rewrite sub_in_range; [reflexivity| |].
  - apply Z.le_0_sub. exact H1.
  - eapply Z.le_trans; [|exact H2].
    apply Z.le_sub_nonneg. apply Z.mul_nonneg_nonneg; [exact H0|discriminate].
Qed.



Lemma check_rate_limit_first (w : World) :
  healthy w -> timely w ->
  counter user_id action_type w = None ->
  let now := clock w (ticks w) in
  run (check_rate_limit cfg user_id action_type limit window_seconds) w =
  (Return true,
   set_rate_limits (Mongo.insert_one (first_counter user_id action_type now) (rate_limits w))
                   (called (called (tick w)))).
Proof.
  intros Hh Ht Hc now. unfold check_rate_limit. rewrite enabled. cbn [negb].
  rewrite run_try_except. unfold check_rate_limit_body.
  rewrite check_prologue by exact Ht.
  rewrite run_bind, run_db_read. cbn [fault calls tick]. rewrite Hh.
  change (rate_limits (called (tick w))) with (rate_limits w).
  fold key. unfold counter in Hc. fold key in Hc. rewrite Hc.
  rewrite run_bind, run_db_write. cbn [fault calls tick called]. rewrite Hh.
  reflexivity.
Qed.

Lemma check_rate_limit_reset (w : World) (d : RateLimit) :
  healthy w -> timely w ->
  counter user_id action_type w = Some d ->
  let now := clock w (ticks w) in
  rl_window_start d < now - span ->
  run (check_rate_limit cfg user_id action_type limit window_seconds) w =
  (Return true,
   set_rate_limits
     (Mongo.update_one (has_key key) (reset_counter now) (rate_limits w))
     (called (called (tick w)))).
Proof.
  intros Hh Ht Hc now Hlt. unfold check_rate_limit. rewrite enabled. cbn [negb].
  rewrite run_try_except. unfold check_rate_limit_body.
  rewrite check_prologue by exact Ht.
  rewrite run_bind, run_db_read. cbn [fault calls tick]. rewrite Hh.
  change (rate_limits (called (tick w))) with (rate_limits w).
  fold key. unfold counter in Hc. fold key in Hc. rewrite Hc.
  fold span. fold now.
  destruct (Z.ltb_spec (rl_window_start d) (now - span)) as [_|Hge]; [|lia].
  rewrite run_bind, run_db_write. cbn [fault calls tick called]. rewrite Hh.
  reflexivity.
Qed.

Lemma check_rate_limit_allowed (w : World) (d : RateLimit) :
  healthy w -> timely w ->
  counter user_id action_type w = Some d ->
  let now := clock w (ticks w) in
  now - span <= rl_window_start d ->
  rl_count d + 1 <= limit ->
  run (check_rate_limit cfg user_id action_type limit window_seconds) w =
  (Return true,
   set_rate_limits
     (Mongo.update_one (has_key key) (bump_counter now (rl_count d + 1)) (rate_limits w))
     (called (called (tick w)))).
Proof.
  intros Hh Ht Hc now Hin Hle. unfold check_rate_limit. rewrite enabled. cbn [negb].
  rewrite run_try_except. unfold check_rate_limit_body.
  rewrite check_prologue by exact Ht.
  rewrite run_bind, run_db_read. cbn [fault calls tick]. rewrite Hh.
  change (rate_limits (called (tick w))) with (rate_limits w).
  fold key. unfold counter in Hc. fold key in Hc. rewrite Hc.
  fold span. fold now.
  destruct (Z.ltb_spec (rl_window_start d) (now - span)) as [Hlt|_]; [lia|].
  rewrite run_bind, run_db_write. cbn [fault calls tick called]. rewrite Hh.
  destruct (Z.gtb_spec (rl_count d + 1) limit) as [Hgt|_]; [lia|].
  reflexivity.
Qed.

Lemma check_rate_limit_denied (w : World) (d : RateLimit) :
  healthy w -> timely w ->
  counter user_id action_type w = Some d ->
  let now := clock w (ticks w) in
  now - span <= rl_window_start d ->
  limit < rl_count d + 1 ->
  exists w',
    run (check_rate_limit cfg user_id action_type limit window_seconds) w =
    (Return false, w') /\
    rate_limits w' =
      Mongo.update_one (has_key key) (bump_counter now (rl_count d + 1)) (rate_limits w) /\
    clock w' = clock w /\ fault w' = fault w.
Proof.
  intros Hh Ht Hc now Hin Hle. unfold check_rate_limit. rewrite enabled. cbn [negb].
  rewrite run_try_except. unfold check_rate_limit_body.
  rewrite check_prologue by exact Ht.
  rewrite run_bind, run_db_read. cbn [fault calls tick]. rewrite Hh.
  change (rate_limits (called (tick w))) with (rate_limits w).
  fold key. unfold counter in Hc. fold key in Hc. rewrite Hc.
  fold span. fold now.
  destruct (Z.ltb_spec (rl_window_start d) (now - span)) as [Hlt|_]; [lia|].
  rewrite run_bind, run_db_write. cbn [fault calls tick called]. rewrite Hh.
  destruct (Z.gtb_spec (rl_count d + 1) limit) as [_|Hgt]; [|lia].
  rewrite run_bind, run_log_security_event.
  cbn [fault calls tick called set_rate_limits]. rewrite Hh.
  rewrite run_bind.
  match goal with |- context [run (if ?c then _ else _) ?w1] =>
    set (w1' := w1); destruct c end.
  - rewrite run_bind. unfold lookup_user_name. rewrite run_bind, run_db_read.
    subst w1'. cbn [fault calls tick called set_rate_limits set_security_logs].
    rewrite Hh. cbn [run].
    match goal with |- context [run (send_admin_alert cfg ?m ?l) ?w2] =>
      destruct (run_send_admin_alert cfg m l w2) as (w' & -> & Hs) end.
    exists w'. split; [reflexivity|].
    destruct Hs as (Hc1 & _ & Hf1 & Hr1 & _). rewrite Hr1, Hc1, Hf1.
    repeat split.
  - cbn [run]. exists w1'. split; [reflexivity|]. subst w1'. repeat split.
Qed.





End CheckFacts.











(** ** Frame conditions *)

Section KeepsFacts.
Context {X : Type} (f : World -> X).

Lemma keeps_ret {A} (a : A) : keeps f (Ret a).
Proof. intros w. reflexivity. Qed.

Lemma keeps_throw {A} (e : exn) : keeps f (@Throw A e).
Proof. intros w. reflexivity. Qed.

Lemma keeps_lift {A} (o : outcome A) : keeps f (lift o).
Proof. destruct o; intros w; reflexivity. Qed.

Lemma keeps_bind {A B} (t : task A) (k : A -> task B) :
  keeps f t -> (forall a, keeps f (k a)) -> keeps f (bind t k).
Proof.
  intros Ht Hk w. rewrite run_bind. specialize (Ht w).
  destruct (run t w) as [[a|e] w1]; cbn [snd] in *.
  - now rewrite Hk.
  - exact Ht.
Qed.

Lemma keeps_try_except {A} (t : task A) (h : exn -> task A) :
  keeps f t -> (forall e, keeps f (h e)) -> keeps f (try_except t h).
Proof.
  intros Ht Hh w. rewrite run_try_except. specialize (Ht w).
  destruct (run t w) as [[a|e] w1]; cbn [snd] in *.
  - exact Ht.
  - now rewrite Hh.
Qed.

Hypothesis f_tick : forall w, f (tick w) = f w.
Hypothesis f_called : forall w, f (called w) = f w.

Lemma keeps_now : keeps f datetime_now.
Proof. intros w. apply f_tick. Qed.

Lemma keeps_db_read {Y} (g : World -> Y) : keeps f (db_read g).
Proof.
  intros w. rewrite run_db_read. destruct (fault w (calls w)); apply f_called.
Qed.

Lemma keeps_db_write (g : World -> World) :
  (forall w, f (g w) = f w) -> keeps f (db_write g).
Proof.
  intros Hg w. rewrite run_db_write. destruct (fault w (calls w)); cbn [snd].
  - apply f_called.
  - now rewrite Hg.
Qed.

Lemma keeps_bot_call (o : outgoing) :
  (forall c w, f (set_outbox c w) = f w) -> keeps f (bot_call o).
Proof.
  intros Hg w. rewrite run_bot_call. destruct (fault w (calls w)); cbn [snd].
  - apply f_called.
  - now rewrite Hg.
Qed.

End KeepsFacts.

(** Proves [keeps f t] for a task written with the combinators above. *)
Ltac keeps_step :=
  match goal with
  | |- keeps _ (bind _ _) => apply keeps_bind; [|intro]
  | |- keeps _ (try_except _ _) => apply keeps_try_except; [|intro]
  | |- keeps _ (Ret _) => apply keeps_ret
  | |- keeps _ (Throw _) => apply keeps_throw
  | |- keeps _ (lift _) => apply keeps_lift
  | |- keeps _ datetime_now => apply keeps_now; reflexivity
  | |- keeps _ (db_read _) => apply keeps_db_read; reflexivity
  | |- keeps _ (db_write _) => apply keeps_db_write; reflexivity
  | |- keeps _ (bot_call _) => apply keeps_bot_call; reflexivity
  | |- keeps _ (if ?c then _ else _) => destruct c
  | |- keeps _ (match ?x with _ => _ end) => destruct x
  end.

Section BlockFacts.
Variable cfg : Config.

Lemma keeps_blocks_log (event_type : string) (user_id : Z)
    (details : list (string * value)) (severity : string) :
  keeps blocked_users (log_security_event event_type user_id details severity).
Proof. unfold log_security_event. repeat keeps_step. Qed.

Lemma keeps_blocks_alert (admins : list string) (message level : string) :
  keeps blocked_users (alert_each admins message level).
Proof.
  induction admins as [|a rest IH]; cbn [alert_each]; repeat keeps_step.
  exact IH.
Qed.

Lemma keeps_blocks_lookup (user_id : Z) :
  keeps blocked_users (lookup_user_name user_id).
Proof. unfold lookup_user_name. repeat keeps_step. Qed.

Lemma keeps_blocks_check_rate_limit (user_id : Z) (action_type : string)
    (limit window_seconds : Z) :
  keeps blocked_users (check_rate_limit cfg user_id action_type limit window_seconds).
Proof.
  unfold check_rate_limit, check_rate_limit_body, send_admin_alert.
  repeat first [apply keeps_blocks_log | apply keeps_blocks_alert
               | apply keeps_blocks_lookup | keeps_step].
Qed.

End BlockFacts.

(** ** The block list *)

Section ListFacts.














End ListFacts.

Lemma run_try_bind {A B} (t : task A) (k : A -> task B) (h : exn -> task B) (w : World) :
  run (try_except (bind t k) h) w =
  match run t w with
  | (Return a, w') => run (try_except (k a) h) w'
  | (Raise e, w') => run (h e) w'
  end.
Proof.
  rewrite run_try_except, run_bind.
  destruct (run t w) as [[a|e] w']; [|reflexivity].
  now rewrite run_try_except.
Qed.


Section BlockUserFacts.
Variable cfg : Config.





End BlockUserFacts.

Section NotifyFacts.
Variable cfg : Config.




End NotifyFacts.

Section HealthyFacts.
Variable cfg : Config.





End HealthyFacts.

Section PreservesFacts.
Variable I : World -> Prop.

Lemma preserves_bind {A B} (t : task A) (k : A -> task B) :
  preserves I t -> (forall a, preserves I (k a)) -> preserves I (bind t k).
Proof.
  intros Ht Hk w Hw. rewrite run_bind. specialize (Ht w Hw).
  destruct (run t w) as [[a|e] w1]; cbn [snd] in *; [now apply Hk|exact Ht].
Qed.


End PreservesFacts.


Section UniqueFacts.
Variable cfg : Config.












End UniqueFacts.

Lemma run_is_user_blocked (user_id : Z) (w : World) :
  run (is_user_blocked user_id) w =
  (Return (if fault w (calls w) then false
           else is_some (Mongo.find_one (blocked_as user_id) (blocked_users w))),
   called w).
Proof.
  unfold is_user_blocked. rewrite run_try_except, run_bind, run_db_read.
  now destruct (fault w (calls w)).
Qed.



Section SuspiciousFacts.
Variable cfg : Config.


End SuspiciousFacts.



Section GateFacts.
Variable cfg : Config.

Lemma run_touch_last_activity (user_id : Z) (w : World) :
  fst (run (touch_last_activity user_id) w) = Return tt.
Proof.
  unfold touch_last_activity. rewrite run_try_except, run_bind.
  cbn [run datetime_now]. rewrite run_db_write.
  now destruct (fault (tick w) (calls (tick w))).
Qed.

Lemma check_rate_limit_never_raises (user_id : Z) (action_type : string)
    (limit window_seconds : Z) (w : World) :
  exists b w',
    run (check_rate_limit cfg user_id action_type limit window_seconds) w
    = (Return b, w').
Proof.
  unfold check_rate_limit. destruct (RATE_LIMIT_ENABLED cfg); cbn [negb].
  - rewrite run_try_except.
    destruct (run (check_rate_limit_body cfg user_id action_type limit
                     window_seconds) w) as [[b|e] w']; cbn [run]; eauto.
  - cbn [run]. eauto.
Qed.

Lemma check_rate_limit_error_allows (user_id : Z) (action_type : string)
    (limit window_seconds : Z) (w w' : World) (e : exn) :
  run (check_rate_limit_body cfg user_id action_type limit window_seconds) w
    = (Raise e, w') ->
  fst (run (check_rate_limit cfg user_id action_type limit window_seconds) w)
    = Return true.
Proof.
  intros Hb. unfold check_rate_limit. destruct (RATE_LIMIT_ENABLED cfg); cbn [negb].
  - now rewrite run_try_except, Hb.
  - reflexivity.
Qed.

(** The lookup of the counter fails: the call is allowed and the
    counters are left as they were. *)
Lemma check_rate_limit_outage (user_id : Z) (action_type : string)
    (limit window_seconds : Z) (w : World) :
  fault w (calls w) = true ->
  let r := run (check_rate_limit cfg user_id action_type limit window_seconds) w in
  fst r = Return true /\ rate_limits (snd r) = rate_limits w.
Proof.
  intros Hf r. subst r. unfold check_rate_limit.
  destruct (RATE_LIMIT_ENABLED cfg); cbn [negb]; [|split; reflexivity].
  rewrite run_try_except. unfold check_rate_limit_body.
  rewrite run_bind. cbn [run datetime_now]. rewrite run_bind.
  destruct (DateTime.timedelta 0 window_seconds 0) as [delta|e]; cbn [lift run];
    [|split; reflexivity].
  rewrite run_bind.
  destruct (DateTime.sub (clock w (ticks w)) delta) as [ws|e]; cbn [lift run];
    [|split; reflexivity].
  rewrite run_bind, run_db_read. cbn [fault calls tick]. rewrite Hf.
  split; reflexivity.
Qed.

Lemma on_pre_process_message_outage (message : Message) (w : World) :
  fault w (calls w) = true -> fault w (S (calls w)) = true ->
  harmless message ->
  fst (run (on_pre_process_message cfg message) w) = Return tt.
Proof.
  intros Hf1 Hf2 Hm. unfold on_pre_process_message.
  rewrite run_bind, run_is_user_blocked, Hf1. rewrite run_bind.
  destruct (@check_rate_limit_outage (from_user_id message) "message" 30 60 (called w))
    as [Hr _]; [exact Hf2|].
  destruct (run (check_rate_limit cfg (from_user_id message) "message" 30 60) (called w))
    as [o w1]. cbn [fst] in Hr. subst o. cbn [negb].
  unfold harmless in Hm.
  destruct (text message) as [[|c t]|]; try apply run_touch_last_activity.
  specialize (Hm _ eq_refl).
  destruct (detect_potential_attack (String c t)) as [is_attack pattern].
  cbn [fst] in Hm. subst is_attack. apply run_touch_last_activity.
Qed.

Lemma on_pre_process_callback_query_outage (callback_query : CallbackQuery) (w : World) :
  fault w (calls w) = true -> fault w (S (calls w)) = true ->
  fst (run (on_pre_process_callback_query cfg callback_query) w) = Return tt.
Proof.
  intros Hf1 Hf2. unfold on_pre_process_callback_query.
  rewrite run_bind, run_is_user_blocked, Hf1. rewrite run_bind.
  destruct (@check_rate_limit_outage (cq_from_user_id callback_query) "callback" 20 60
              (called w)) as [Hr _]; [exact Hf2|].
  destruct (run (check_rate_limit cfg (cq_from_user_id callback_query) "callback" 20 60)
                (called w)) as [o w1]. cbn [fst] in Hr. subst o. cbn [negb].
  apply run_touch_last_activity.
Qed.

End GateFacts.

(** C6.  The block check and the rate-limit check fail open.
    [is_user_blocked] never raises and answers false when its lookup
    fails; [check_rate_limit] never raises and answers true whenever
    anything inside it raises.  So when the lookups of both checks fail,
    a message without attack pattern and a callback query pass the
    middleware: it returns normally instead of cancelling the handler or
    raising. *)
Theorem fail_open (cfg : Config) :
  (forall user_id w,
     exists b, run (is_user_blocked user_id) w = (Return b, called w)) /\
  (forall user_id w,
     fault w (calls w) = true ->
     run (is_user_blocked user_id) w = (Return false, called w)) /\
  (forall user_id action_type limit window_seconds w,
     exists b w',
       run (check_rate_limit cfg user_id action_type limit window_seconds) w
       = (Return b, w')) /\
  (forall user_id action_type limit window_seconds w e w',
     run (check_rate_limit_body cfg user_id action_type limit window_seconds) w
       = (Raise e, w') ->
     fst (run (check_rate_limit cfg user_id action_type limit window_seconds) w)
       = Return true) /\
  (forall message w,
     fault w (calls w) = true -> fault w (S (calls w)) = true ->
     harmless message ->
     fst (run (on_pre_process_message cfg message) w) = Return tt) /\
  (forall callback_query w,
     fault w (calls w) = true -> fault w (S (calls w)) = true ->
     fst (run (on_pre_process_callback_query cfg callback_query) w) = Return tt).
Proof.
  split.
  { intros user_id w. rewrite run_is_user_blocked. eauto. }
  split.
  { intros user_id w Hf. now rewrite run_is_user_blocked, Hf. }
  split; [intros; apply check_rate_limit_never_raises|].
  split; [intros; eapply check_rate_limit_error_allows; eassumption|].
  split; [intros; now apply on_pre_process_message_outage|].
  intros; now apply on_pre_process_callback_query_outage.
Qed.

Lemma fail_open_witness :
  run (is_user_blocked 7) Sample.blackout
    = (Return false, called Sample.blackout) /\
  fst (run (check_rate_limit Sample.config 7 "message" 30 60) Sample.blackout)
    = Return true /\
  fst (run (on_pre_process_message Sample.config
              (mkMessage 1 7 "Eve" 7 (Some "hello"))) Sample.blackout)
    = Return tt.
Proof.
  destruct (fail_open Sample.config) as (_ & Hblocked & _ & Hcheck & Hgate & _).
  split; [apply Hblocked; reflexivity|].
  split.
  - apply Hcheck with (e := PyMongoError)
                      (w' := called (tick Sample.blackout)).
    reflexivity.
  - apply Hgate; [reflexivity|reflexivity|].
    intros t Ht. inversion Ht; subst t. vm_compute. reflexivity.
Defined.









(* ================================================================== *)
(** * Further properties of the module                                *)
(* ================================================================== *)

(** ** Sanitising *)

Section SanitizeFacts.

Lemma append_assoc (a b c : string) : (a ++ b) ++ c = a ++ (b ++ c).
Proof. induction a as [|x a IH]; cbn [append]; [reflexivity|now rewrite IH]. Qed.

Lemma replace_app (old : ascii) (new a b : string) :
  replace old new (a ++ b) = replace old new a ++ replace old new b.
Proof.
  induction a as [|c a IH]; cbn [replace append]; [reflexivity|].
  destruct (Ascii.eqb c old); cbn [append]; rewrite IH.
  - now rewrite append_assoc.
  - reflexivity.
Qed.

Lemma escape_all_app (a b : string) :
  escape_all (a ++ b) = escape_all a ++ escape_all b.
Proof.
  induction a as [|c a IH]; cbn [escape_all append]; [reflexivity|].
  now rewrite IH, append_assoc.
Qed.

Lemma replace_chain (s : string) :
  replace "'" "&#x27;"
    (replace dquote "&quot;"
       (replace "&" "&amp;" (replace ">" "&gt;" (replace "<" "&lt;" s))))
  = escape_all s.
Proof.
  induction s as [|c s IH]; [reflexivity|].
  cbn [replace escape_all]. unfold escaped.
  destruct (Ascii.eqb c "<") eqn:E1.
  - rewrite !replace_app, IH. reflexivity.
  - cbn [replace]. destruct (Ascii.eqb c ">") eqn:E2.
    + rewrite !replace_app, IH. reflexivity.
    + cbn [replace]. destruct (Ascii.eqb c "&") eqn:E3.
      * rewrite !replace_app, IH. reflexivity.
      * cbn [replace]. destruct (Ascii.eqb c dquote) eqn:E4.
        -- rewrite !replace_app, IH. reflexivity.
        -- cbn [replace]. destruct (Ascii.eqb c "'") eqn:E5.
           ++ rewrite IH. reflexivity.
           ++ rewrite IH. reflexivity.
Qed.

Lemma occurs_app (c : ascii) (a b : string) :
  occurs c (a ++ b) = (occurs c a || occurs c b)%bool.
Proof.
  induction a as [|x a IH]; cbn [occurs append]; [reflexivity|].
  now rewrite IH, orb_assoc.
Qed.

Lemma escaped_safe (c x : ascii) : unsafe x = true -> occurs x (escaped c) = false.
Proof.
  unfold unsafe, escaped. intros Hx.
  apply orb_true_iff in Hx. destruct Hx as [Hx|Hx].
  2: { apply Ascii.eqb_eq in Hx. subst x.
       destruct (Ascii.eqb c "<") eqn:E1; [reflexivity|].
       destruct (Ascii.eqb c ">") eqn:E2; [reflexivity|].
       destruct (Ascii.eqb c "&") eqn:E3; [reflexivity|].
       destruct (Ascii.eqb c dquote) eqn:E4; [reflexivity|].
       destruct (Ascii.eqb c "'") eqn:E5; [reflexivity|].
       cbn [occurs]. now rewrite E5. }
  apply orb_true_iff in Hx. destruct Hx as [Hx|Hx].
  2: { apply Ascii.eqb_eq in Hx. subst x.
       destruct (Ascii.eqb c "<") eqn:E1; [reflexivity|].
       destruct (Ascii.eqb c ">") eqn:E2; [reflexivity|].
       destruct (Ascii.eqb c "&") eqn:E3; [reflexivity|].
       destruct (Ascii.eqb c dquote) eqn:E4; [reflexivity|].
       destruct (Ascii.eqb c "'") eqn:E5; [reflexivity|].
       cbn [occurs]. now rewrite E4. }
  apply orb_true_iff in Hx. destruct Hx as [Hx|Hx];
    apply Ascii.eqb_eq in Hx; subst x;
    (destruct (Ascii.eqb c "<") eqn:E1; [reflexivity|]);
    (destruct (Ascii.eqb c ">") eqn:E2; [reflexivity|]);
    (destruct (Ascii.eqb c "&") eqn:E3; [reflexivity|]);
    (destruct (Ascii.eqb c dquote) eqn:E4; [reflexivity|]);
    (destruct (Ascii.eqb c "'") eqn:E5; [reflexivity|]);
    cbn [occurs]; [now rewrite E1|now rewrite E2].
Qed.

Lemma escape_all_safe (s : string) (x : ascii) :
  unsafe x = true -> occurs x (escape_all s) = false.
Proof.
  intros Hx. induction s as [|c s IH]; cbn [escape_all]; [reflexivity|].
  now rewrite occurs_app, IH, escaped_safe.
Qed.

End SanitizeFacts.

(** X1.  [sanitize_input] gives the empty string for [None] and for the
    empty string, and otherwise rewrites the text character by character:
    a double quote becomes [&quot;], an apostrophe [&#x27;], an ampersand
    [&amp;], and, because the angle brackets are replaced before the
    ampersand, [<] becomes [&amp;lt;] and [>] becomes [&amp;gt;]; every
    other character is kept.  So sanitising a concatenation is
    concatenating the sanitised parts. *)
Theorem sanitize_input_escapes :
  sanitize_input None = "" /\
  (forall value, sanitize_input (Some value) = escape_all value) /\
  (forall a b,
     sanitize_input (Some (a ++ b))
     = sanitize_input (Some a) ++ sanitize_input (Some b)).
Proof.
  assert (H : forall value, sanitize_input (Some value) = escape_all value).
  { intros [|c v]; [reflexivity|]. unfold sanitize_input. apply replace_chain. }
  split; [reflexivity|]. split; [exact H|].
  intros a b. rewrite !H. apply escape_all_app.
Qed.

(** X2.  The result of [sanitize_input] never contains an angle bracket,
    a double quote or an apostrophe, whatever the input. *)
Theorem sanitize_input_safe (value : option string) (x : ascii) :
  unsafe x = true -> occurs x (sanitize_input value) = false.
Proof.
  intros Hx. destruct value as [[|c v]|]; try reflexivity.
  unfold sanitize_input. rewrite replace_chain. now apply escape_all_safe.
Qed.

Lemma sanitize_input_safe_witness :
  occurs "<" (sanitize_input (Some "<b onclick='x'>")) = false.
Proof. apply sanitize_input_safe. reflexivity. Defined.


(** ** What the validation rules accept *)

Section RegexFacts.
Variable p : Re.pattern.

Lemma is_some_or_else {A} (x y : option A) :
  is_some (Re.or_else x y) = (is_some x || is_some y)%bool.
Proof. destruct x, y; reflexivity. Qed.

(** A greedy repetition followed by [k] matches exactly when the text
    splits into an allowed number of characters of the class and a rest
    that [k] matches. *)
Lemma rep_greedy (cs : Re.cset) (k : Re.cont) (s : string) :
  forall (lo : nat) (hi : option nat) (pos : nat),
    is_some (Re.rep p cs true lo hi k pos s) = true <->
    exists a b,
      s = a ++ b /\ (lo <= String.length a)%nat /\ at_most hi (String.length a) /\
      all_chars (Re.cset_matches p cs) a = true /\
      is_some (k (pos + String.length a)%nat b) = true.
Proof.
  induction s as [|x s IH]; intros lo hi pos.
  - cbn [Re.rep]. split.
    + destruct (Nat.eqb_spec lo 0) as [->|]; [|discriminate]. intros H.
      exists "", "". cbn [append String.length all_chars]. rewrite Nat.add_0_r.
      repeat split; auto. destruct hi; cbn; [lia|exact I].
    + intros (a & b & Hs & H1 & _ & _ & Hk).
      destruct a; [|discriminate]. destruct b; [|discriminate].
      cbn [String.length] in *. rewrite Nat.add_0_r in Hk.
      destruct (Nat.eqb_spec lo 0); [exact Hk|lia].
  - cbn [Re.rep].
    assert (Hstop : is_some (if Nat.eqb lo 0 then k pos (String x s) else None) = true
                    <-> lo = 0%nat /\ is_some (k pos (String x s)) = true).
    { destruct (Nat.eqb_spec lo 0); split; try tauto; discriminate. }
    split.
    + intros H.
      assert (Hcases :
        (Re.more_allowed hi && Re.cset_matches p cs x = true /\
         is_some (Re.rep p cs true (Nat.pred lo) (Re.one_less hi) k (S pos) s)
           = true) \/
        is_some (if Nat.eqb lo 0 then k pos (String x s) else None) = true).
      { destruct (Re.more_allowed hi && Re.cset_matches p cs x)%bool;
          [|now right].
        rewrite is_some_or_else in H. apply orb_true_iff in H.
        destruct H; [left; split; auto|now right]. }
      destruct Hcases as [[Hm Hgo]|Hst].
      * apply andb_true_iff in Hm. destruct Hm as [Hhi Hx].
        apply IH in Hgo.
        destruct Hgo as (a & b & -> & H1 & H2 & Ha & Hk).
        exists (String x a), b. cbn [append String.length all_chars].
        rewrite Hx, Ha. replace (pos + S (String.length a))%nat
          with (S pos + String.length a)%nat by lia.
        repeat split; auto; [lia|].
        destruct hi as [[|h]|]; cbn in *; try discriminate; try lia; exact I.
      * apply Hstop in Hst. destruct Hst as [-> Hk].
        exists "", (String x s). cbn [append String.length all_chars].
        rewrite Nat.add_0_r. repeat split; auto.
        destruct hi; cbn; [lia|exact I].
    + intros (a & b & Hs & H1 & H2 & Ha & Hk). destruct a as [|y a].
      * cbn [append String.length] in *. subst b. rewrite Nat.add_0_r in Hk.
        assert (Hst : is_some (if Nat.eqb lo 0 then k pos (String x s) else None)
                      = true) by (apply Hstop; split; [lia|exact Hk]).
        destruct (Re.more_allowed hi && Re.cset_matches p cs x)%bool;
          [|exact Hst].
        rewrite is_some_or_else, Hst. apply orb_true_r.
      * cbn [append String.length all_chars] in *. inversion Hs; subst y s.
        apply andb_true_iff in Ha. destruct Ha as [Hx Ha].
        assert (Hhi : Re.more_allowed hi = true)
          by (destruct hi as [[|h]|]; cbn in *; [lia|reflexivity|reflexivity]).
        rewrite Hhi, Hx. cbn [andb]. rewrite is_some_or_else.
        apply orb_true_iff. left. apply IH.
        exists a, b. replace (S pos + String.length a)%nat
          with (pos + S (String.length a))%nat by lia.
        repeat split; auto; [lia|].
        destruct hi as [h|]; cbn in *; [lia|exact I].
Qed.

Lemma at_end_line (b : string) : Re.at_end b = true <-> b = "" \/ b = nl.
Proof.
  destruct b as [|c [|c' b]]; cbn [Re.at_end].
  - split; auto.
  - split.
    + intros H. apply Ascii.eqb_eq in H. subst c. now right.
    + intros [H|H]; [discriminate|]. inversion H. reflexivity.
  - split; [discriminate|]. intros [H|H]; discriminate.
Qed.

Lemma exec_eol (pos : nat) (b : string) :
  is_some (Re.exec p Re.Eol Re.accept pos b) = true <-> b = "" \/ b = nl.
Proof.
  cbn [Re.exec]. rewrite <- at_end_line.
  destruct (Re.at_end b); cbn; split; auto.
Qed.



End RegexFacts.

Section NameFacts.




End NameFacts.



Section ShapeFacts.
Variable p : Re.pattern.
Hypothesis case_sensitive : Re.IGNORECASE p = false.

Lemma exec_cat (r1 r2 : Re.regex) (k : Re.cont) (pos : nat) (s : string) :
  Re.exec p (Re.Cat r1 r2) k pos s = Re.exec p r1 (Re.exec p r2 k) pos s.
Proof. reflexivity. Qed.

Lemma exec_bol (k : Re.cont) (s : string) : Re.exec p Re.Bol k 0 s = k 0%nat s.
Proof. reflexivity. Qed.


Lemma exec_one (c : ascii) (k : Re.cont) (pos : nat) (s : string) :
  is_some (Re.exec p (Re.chr c) k pos s) = true <->
  exists b, s = String c b /\ is_some (k (S pos) b) = true.
Proof.
  cbn [Re.exec Re.chr Re.cset_matches Re.atom_matches]. rewrite case_sensitive.
  destruct s as [|x s].
  - split; [discriminate|]. intros (b & H & _). discriminate.
  - destruct (Ascii.eqb_spec x c) as [->|Hne].
    + split; [eauto|]. intros (b & H & Hk). now inversion H.
    + split; [discriminate|]. intros (b & H & _). inversion H. contradiction.
Qed.


Lemma append_empty (s : string) : s ++ "" = s.
Proof. induction s; cbn; congruence. Qed.

End ShapeFacts.



Section RankFacts.
Variable p : Re.pattern.
Hypothesis case_sensitive : Re.IGNORECASE p = false.

Lemma exec_single (cs : Re.cset) (k : Re.cont) (pos : nat) (s : string) :
  is_some (Re.exec p (Re.Single cs) k pos s) = true <->
  exists c b, s = String c b /\ Re.cset_matches p cs c = true /\
              is_some (k (S pos) b) = true.
Proof.
  cbn [Re.exec]. destruct s as [|x s].
  - split; [discriminate|]. intros (c & b & H & _). discriminate.
  - destruct (Re.cset_matches p cs x) eqn:E.
    + split; [eauto|]. intros (c & b & H & _ & Hk). now inversion H.
    + split; [discriminate|]. intros (c & b & H & Hc & _). inversion H; subst.
      congruence.
Qed.

Lemma exec_alt (r1 r2 : Re.regex) (k : Re.cont) (pos : nat) (s : string) :
  is_some (Re.exec p (Re.Alt r1 r2) k pos s) = true <->
  is_some (Re.exec p r1 k pos s) = true \/ is_some (Re.exec p r2 k pos s) = true.
Proof. cbn [Re.exec]. rewrite is_some_or_else. apply orb_true_iff. Qed.

Lemma exec_group (r : Re.regex) (k : Re.cont) (pos : nat) (s : string) :
  Re.exec p (Re.Group r) k pos s = Re.exec p r k pos s.
Proof. reflexivity. Qed.

Lemma range_char (lo hi c : ascii) :
  Re.cset_matches p (Re.Class [Re.ARange lo hi]) c = true ->
  exists n, (Re.code lo <= n <= Re.code hi)%nat /\ c = ascii_of_nat n.
Proof.
  cbn [Re.cset_matches existsb Re.atom_matches]. rewrite case_sensitive, orb_false_r.
  unfold Re.between. intros H. apply andb_true_iff in H. destruct H as [H1 H2].
  apply Nat.leb_le in H1, H2. exists (Re.code c). split; [lia|].
  unfold Re.code. symmetry. apply ascii_nat_embedding.
Qed.

End RankFacts.

(** X5.  The rule "rank" accepts exactly the ranks 1k to 30k and 1d to
    9d, written without leading zero, possibly followed by one line
    feed. *)
Theorem validate_input_rank (v : string) :
  validate_input "rank" (Some v) = true <->
  exists body n,
    line_of body v /\
    ((1 <= n <= 30 /\ body = str n ++ "k") \/ (1 <= n <= 9 /\ body = str n ++ "d")).
Proof.
  pose (tens := Re.Cat (Re.chr "3") (Re.Single (Re.Class [Re.AChar "0"]))).
  pose (teens := Re.Cat (Re.Single (Re.Class [Re.ARange "1" "2"]))
                        (Re.Single (Re.Class [Re.ARange "0" "9"]))).
  pose (units := Re.Single (Re.Class [Re.ARange "1" "9"])).
  pose (kyu := Re.Cat Re.Bol (Re.Cat (Re.Group (Re.Alt tens (Re.Alt teens units)))
                                     (Re.Cat (Re.chr "k") Re.Eol))).
  pose (dan := Re.Cat Re.Bol (Re.Cat (Re.Group units) (Re.Cat (Re.chr "d") Re.Eol))).
  pose (rule := plain (Re.Alt kyu dan)).
  assert (Hcs : Re.IGNORECASE rule = false) by reflexivity.
  transitivity (is_some (Re.exec rule (Re.Alt kyu dan) Re.accept 0 v) = true).
  { destruct v as [|c v']; [|reflexivity].
    split; intros H; [discriminate H|]. vm_compute in H. discriminate H. }
  split.
  - intros H. apply exec_alt in H. destruct H as [H|H].
    + unfold kyu in H. rewrite exec_cat, exec_bol, exec_cat, exec_group in H.
      apply exec_alt in H. destruct H as [H|H];
        [|apply exec_alt in H; destruct H as [H|H]].
      * unfold tens in H. rewrite exec_cat in H.
        apply exec_one in H; [|exact Hcs]. destruct H as (b1 & -> & H).
        apply exec_single in H. destruct H as (c & b2 & -> & Hc & H).
        cbn in Hc. rewrite orb_false_r in Hc. apply Ascii.eqb_eq in Hc. subst c.
        rewrite exec_cat in H. apply exec_one in H; [|exact Hcs].
        destruct H as (b3 & -> & H). apply (proj1 (exec_eol rule _ b3)) in H.
        exists "30k", 30. split; [|left; split; [lia|reflexivity]].
        destruct H as [->| ->]; [left|right]; reflexivity.
      * unfold teens in H. rewrite exec_cat in H.
        apply exec_single in H. destruct H as (c1 & b1 & -> & Hc1 & H).
        apply exec_single in H. destruct H as (c2 & b2 & -> & Hc2 & H).
        rewrite exec_cat in H. apply exec_one in H; [|exact Hcs].
        destruct H as (b3 & -> & H). apply (proj1 (exec_eol rule _ b3)) in H.
        apply range_char in Hc1, Hc2; try exact Hcs.
        destruct Hc1 as (n1 & Hn1 & ->), Hc2 as (n2 & Hn2 & ->).
        change (Re.code "1") with 49%nat in Hn1. change (Re.code "2") with 50%nat in Hn1.
        change (Re.code "0") with 48%nat in Hn2. change (Re.code "9") with 57%nat in Hn2.
        exists (String (ascii_of_nat n1) (String (ascii_of_nat n2) "k")),
               (Z.of_nat ((n1 - 48) * 10 + (n2 - 48))).
        split; [destruct H as [->| ->]; [left|right]; reflexivity|].
        left. split; [lia|].
        assert (H1 : In n1 (seq 49 2)) by (apply in_seq; lia).
        assert (H2 : In n2 (seq 48 10)) by (apply in_seq; lia).
        cbn [seq In] in H1, H2.
        repeat (destruct H1 as [<-|H1]; [|]); try contradiction;
          repeat (destruct H2 as [<-|H2]; [|]); try contradiction; reflexivity.
      * unfold units in H.
        apply exec_single in H. destruct H as (c1 & b1 & -> & Hc1 & H).
        rewrite exec_cat in H. apply exec_one in H; [|exact Hcs].
        destruct H as (b3 & -> & H). apply (proj1 (exec_eol rule _ b3)) in H.
        apply range_char in Hc1; try exact Hcs.
        destruct Hc1 as (n1 & Hn1 & ->).
        change (Re.code "1") with 49%nat in Hn1. change (Re.code "9") with 57%nat in Hn1.
        exists (String (ascii_of_nat n1) "k"), (Z.of_nat (n1 - 48)).
        split; [destruct H as [->| ->]; [left|right]; reflexivity|].
        left. split; [lia|].
        assert (H1 : In n1 (seq 49 9)) by (apply in_seq; lia).
        cbn [seq In] in H1.
        repeat (destruct H1 as [<-|H1]; [|]); try contradiction; reflexivity.
    + unfold dan in H. rewrite exec_cat, exec_bol, exec_cat, exec_group in H.
      unfold units in H.
      apply exec_single in H. destruct H as (c1 & b1 & -> & Hc1 & H).
      rewrite exec_cat in H. apply exec_one in H; [|exact Hcs].
      destruct H as (b3 & -> & H). apply (proj1 (exec_eol rule _ b3)) in H.
      apply range_char in Hc1; try exact Hcs.
      destruct Hc1 as (n1 & Hn1 & ->).
      change (Re.code "1") with 49%nat in Hn1. change (Re.code "9") with 57%nat in Hn1.
      exists (String (ascii_of_nat n1) "d"), (Z.of_nat (n1 - 48)).
      split; [destruct H as [->| ->]; [left|right]; reflexivity|].
      right. split; [lia|].
      assert (H1 : In n1 (seq 49 9)) by (apply in_seq; lia).
      cbn [seq In] in H1.
      repeat (destruct H1 as [<-|H1]; [|]); try contradiction; reflexivity.
  - intros (body & n & Hl & Hn).
    assert (Hm : exists m, n = Z.of_nat m /\ (m <= 30)%nat)
      by (exists (Z.to_nat n); lia).
    destruct Hm as (m & -> & Hm).
    do 31 (destruct m as [|m];
           [destruct Hn as [[Hn ->]|[Hn ->]]; try (exfalso; lia);
            destruct Hl as [->| ->]; vm_compute; reflexivity|]).
    exfalso. lia.
Qed.

Lemma validate_input_rank_witness :
  validate_input "rank" (Some "15k") = true /\
  validate_input "rank" (Some ("9d" ++ nl)) = true.
Proof.
  split.
  - apply (proj2 (validate_input_rank "15k")).
    exists "15k", 15. split; [left; reflexivity|].
    left. split; [lia|reflexivity].
  - apply (proj2 (validate_input_rank ("9d" ++ nl))).
    exists "9d", 9. split; [right; reflexivity|].
    right. split; [lia|reflexivity].
Defined.

Section UrlFacts.
Variable p : Re.pattern.
Hypothesis case_sensitive : Re.IGNORECASE p = false.
Hypothesis dot_stops : Re.DOTALL p = false.

(** A word of the pattern matches itself and nothing else. *)
Lemma exec_word (l : string) :
  l <> "" ->
  forall (k : Re.cont) (pos : nat) (s : string),
    is_some (Re.exec p (Re.lit l) k pos s) = true <->
    exists b, s = l ++ b /\ is_some (k (pos + String.length l)%nat b) = true.
Proof.
  induction l as [|c l IH]; intros Hne k pos s; [contradiction|].
  destruct l as [|c' l'].
  - cbn [Re.lit append String.length]. rewrite exec_one by exact case_sensitive.
    replace (pos + 1)%nat with (S pos) by lia. reflexivity.
  - change (Re.lit (String c (String c' l')))
      with (Re.Cat (Re.chr c) (Re.lit (String c' l'))).
    rewrite exec_cat, exec_one by exact case_sensitive. split.
    + intros (b & -> & H). apply IH in H; [|discriminate].
      destruct H as (b' & -> & H). exists b'. split; [reflexivity|].
      cbn [String.length] in *.
      now replace (pos + S (S (String.length l')))%nat
        with (S pos + S (String.length l'))%nat by lia.
    + intros (b & -> & H). exists (String c' l' ++ b). split; [reflexivity|].
      apply IH; [discriminate|]. exists b. split; [reflexivity|].
      cbn [String.length] in *.
      now replace (S pos + S (String.length l'))%nat
        with (pos + S (S (String.length l')))%nat by lia.
Qed.

Lemma all_dot (s : string) :
  all_chars (Re.cset_matches p Re.Dot) s = negb (occurs Re.newline s).
Proof.
  induction s as [|c s IH]; [reflexivity|].
  cbn [all_chars occurs Re.cset_matches]. rewrite dot_stops, IH.
  now rewrite negb_orb.
Qed.

End UrlFacts.

(** X6.  The rule "url" accepts exactly the values made of [http://] or
    [https://] followed by at least one character, none of them a line
    feed, possibly followed by one line feed; the part after the scheme is
    not examined further. *)
Theorem validate_input_url (v : string) :
  validate_input "url" (Some v) = true <->
  exists scheme body,
    (scheme = "http://" \/ scheme = "https://") /\
    line_of (scheme ++ body) v /\
    body <> "" /\ occurs Re.newline body = false.
Proof.
  pose (rule := plain (Re.cats [Re.Bol; Re.lit "http";
                  Re.Repeat (Re.One (Re.AChar "s")) 0 (Some 1%nat) true;
                  Re.lit "://"; Re.plus Re.Dot; Re.Eol])).
  assert (Hcs : Re.IGNORECASE rule = false) by reflexivity.
  assert (Hda : Re.DOTALL rule = false) by reflexivity.
  transitivity
    (is_some (Re.exec rule
       (Re.Cat Re.Bol (Re.Cat (Re.lit "http")
          (Re.Cat (Re.Repeat (Re.One (Re.AChar "s")) 0 (Some 1%nat) true)
             (Re.Cat (Re.lit "://") (Re.Cat (Re.plus Re.Dot) Re.Eol)))))
       Re.accept 0 v) = true).
  { destruct v as [|c v']; [|reflexivity].
    split; intros H; [discriminate H|]. vm_compute in H. discriminate H. }
  rewrite exec_cat, exec_bol, exec_cat. split.
  - intros H. apply exec_word in H; [|exact Hcs|discriminate].
    destruct H as (b1 & -> & H).
    rewrite exec_cat in H. apply rep_greedy in H.
    destruct H as (s & b2 & -> & _ & Hs1 & Hs & H).
    rewrite exec_cat in H. apply exec_word in H; [|exact Hcs|discriminate].
    destruct H as (b3 & -> & H).
    rewrite exec_cat in H. apply rep_greedy in H.
    destruct H as (body & b4 & -> & Hlen & _ & Hb & H).
    apply (proj1 (exec_eol rule _ b4)) in H.
    rewrite all_dot in Hb by exact Hda. apply negb_true_iff in Hb.
    assert (Hbody : body <> "") by (intros ->; cbn in Hlen; lia).
    cbn in Hs1. destruct s as [|c [|c' s]]; [| |cbn in Hs1; lia].
    + exists "http://", body. split; [now left|].
      split; [|split; assumption].
      destruct H as [->| ->]; [left|right].
      * cbn [append]. now rewrite append_empty.
      * repeat first [rewrite append_assoc | progress cbn [append]]. reflexivity.
    + cbn in Hs. rewrite andb_true_r in Hs. apply Ascii.eqb_eq in Hs. subst c.
      exists "https://", body. split; [now right|].
      split; [|split; assumption].
      destruct H as [->| ->]; [left|right].
      * cbn [append]. now rewrite append_empty.
      * repeat first [rewrite append_assoc | progress cbn [append]]. reflexivity.
  - intros (scheme & body & Hscheme & Hl & Hne & Hnl).
    assert (Hv : exists s rest,
               v = "http" ++ s ++ "://" ++ body ++ rest /\
               (s = "" \/ s = "s") /\ (rest = "" \/ rest = nl)).
    { destruct Hscheme as [->| ->]; [exists ""|exists "s"];
        (destruct Hl as [->| ->]; [exists ""|exists nl]);
        (split; [|split; tauto]);
        repeat first [rewrite append_assoc | rewrite append_empty
                     | progress cbn [append]]; reflexivity. }
    destruct Hv as (s & rest & -> & Hs & Hrest).
    apply exec_word; [exact Hcs|discriminate|].
    exists (s ++ "://" ++ body ++ rest). split; [reflexivity|].
    rewrite exec_cat. apply rep_greedy.
    exists s, ("://" ++ body ++ rest). split; [reflexivity|].
    split; [lia|]. split; [destruct Hs as [->| ->]; cbn; lia|].
    split; [destruct Hs as [->| ->]; reflexivity|].
    rewrite exec_cat. apply exec_word; [exact Hcs|discriminate|].
    exists (body ++ rest). split; [reflexivity|].
    rewrite exec_cat. apply rep_greedy.
    exists body, rest. split; [reflexivity|].
    split; [destruct body; [contradiction|cbn; lia]|]. split; [exact I|].
    split; [rewrite all_dot by exact Hda; now rewrite Hnl|].
    destruct Hrest as [->| ->]; reflexivity.
Qed.

Lemma validate_input_url_witness :
  validate_input "url" (Some "http://<script>alert(1)</script>") = true.
Proof.
  apply (proj2 (validate_input_url "http://<script>alert(1)</script>")).
  exists "http://", "<script>alert(1)</script>".
  split; [now left|]. split; [left; reflexivity|].
  split; [discriminate|reflexivity].
Defined.


(** ** Case-insensitive detection *)

Section LiteralFacts.

Lemma exec_chr (p : Re.pattern) (c x : ascii) (k : Re.cont) (pos : nat) (s : string) :
  Re.IGNORECASE p = true -> Re.lower x = Re.lower c ->
  Re.exec p (Re.chr c) k pos (String x s) = k (S pos) s.
Proof.
  intros Hi Hx. cbn [Re.exec Re.chr Re.cset_matches Re.atom_matches].
  now rewrite Hi, Hx, Ascii.eqb_refl.
Qed.

(** A word of the pattern matches the same word in any mix of cases. *)
Lemma exec_lit (p : Re.pattern) (l : string) :
  Re.IGNORECASE p = true -> l <> "" ->
  forall (mid post : string) (k : Re.cont) (pos : nat),
    lowered mid = lowered l ->
    Re.exec p (Re.lit l) k pos (mid ++ post) = k (pos + String.length l)%nat post.
Proof.
  intros Hi. induction l as [|c l IH]; intros Hne mid post k pos Hm;
    [contradiction|].
  destruct mid as [|x mid]; [discriminate|].
  cbn [lowered] in Hm. inversion Hm as [[Hx Hrest]].
  destruct l as [|c' l'].
  - destruct mid; [|discriminate]. cbn [Re.lit append String.length].
    rewrite exec_chr by assumption. f_equal. lia.
  - change (Re.lit (String c (String c' l')))
      with (Re.Cat (Re.chr c) (Re.lit (String c' l'))).
    cbn [Re.exec append]. rewrite exec_chr by assumption.
    rewrite IH by (try discriminate; assumption).
    f_equal. cbn [String.length]. lia.
Qed.

Lemma search_from_finds (p : Re.pattern) (pre rest : string) (pos : nat) :
  Re.exec p (Re.expr p) Re.accept (pos + String.length pre) rest <> None ->
  Re.search_from p pos (pre ++ rest) <> None.
Proof.
  revert pos. induction pre as [|x pre IH]; intros pos H.
  - cbn [append String.length] in *. rewrite Nat.add_0_r in H.
    destruct rest; cbn [Re.search_from];
      destruct (Re.exec p (Re.expr p) Re.accept pos _); congruence.
  - cbn [append Re.search_from].
    destruct (Re.exec p (Re.expr p) Re.accept pos _); [discriminate|].
    apply IH. cbn [String.length] in H.
    now replace (S pos + String.length pre)%nat with (pos + S (String.length pre))%nat
      by lia.
Qed.

Lemma first_match_any (pats : list Re.pattern) (p : Re.pattern) (value : string) :
  In p pats -> Re.re_search p value <> None -> fst (first_match pats value) = true.
Proof.
  induction pats as [|q pats IH]; intros Hin Hs; [contradiction|].
  cbn [first_match]. destruct (Re.re_search q value) eqn:E; [reflexivity|].
  destruct Hin as [->|Hin]; [contradiction|]. now apply IH.
Qed.

Lemma literal_is_pattern (l : string) :
  In l literal_attacks -> l <> "" /\ In (icase (Re.lit l)) attack_patterns.
Proof.
  intros [<-|[<-|[<-|[<-|[]]]]]; (split; [discriminate|]);
    unfold attack_patterns; cbn [In]; tauto.
Qed.

End LiteralFacts.

(** X7.  The one-word attack patterns ([javascript:], [onload=],
    [onerror=], [%3Cscript]) are found anywhere in a text and in any mix of
    upper and lower case: a text that contains such a word, up to the case
    of its letters, is reported as an attack. *)
Theorem detect_potential_attack_any_case (l pre mid post : string) :
  In l literal_attacks -> lowered mid = lowered l ->
  fst (detect_potential_attack (pre ++ mid ++ post)) = true.
Proof.
  intros Hl Hm. destruct (literal_is_pattern Hl) as [Hne Hin].
  assert (Hv : detect_potential_attack (pre ++ mid ++ post)
               = first_match attack_patterns (pre ++ mid ++ post)).
  { destruct pre; [|reflexivity]. destruct mid; [|reflexivity].
    destruct l; [contradiction|discriminate]. }
  rewrite Hv. apply first_match_any with (p := icase (Re.lit l)); [exact Hin|].
  unfold Re.re_search.
  assert (Hs : Re.search_from (icase (Re.lit l)) 0 (pre ++ mid ++ post) <> None).
  { apply search_from_finds. cbn [Re.expr icase].
    rewrite (@exec_lit (icase (Re.lit l)) l eq_refl Hne mid post Re.accept _ Hm).
    discriminate. }
  destruct (Re.search_from (icase (Re.lit l)) 0 (pre ++ mid ++ post)) as [[b e]|];
    [discriminate|contradiction].
Qed.

Lemma detect_potential_attack_any_case_witness :
  fst (detect_potential_attack "see <a href=JaVaScRiPt:alert(1)>") = true /\
  fst (detect_potential_attack "<img src=x ONERROR=steal()>") = true.
Proof.
  split.
  - apply (@detect_potential_attack_any_case "javascript:" "see <a href="
             "JaVaScRiPt:" "alert(1)>"); [cbn; tauto|reflexivity].
  - apply (@detect_potential_attack_any_case "onerror=" "<img src=x "
             "ONERROR=" "steal()>"); [cbn; tauto|reflexivity].
Defined.


(** ** The shape of a signature *)

Section DigestFacts.

Lemma round_length (st : list Z) (kw : Z * Z) :
  List.length (Sha256.round st kw) = List.length st.
Proof.
  unfold Sha256.round.
  do 9 (destruct st as [|? st]; try reflexivity).
Qed.

Lemma rounds_length (kws : list (Z * Z)) (st : list Z) :
  List.length (fold_left Sha256.round kws st) = List.length st.
Proof.
  revert st. induction kws as [|kw kws IH]; intros st; cbn [fold_left];
    [reflexivity|]. now rewrite IH, round_length.
Qed.

Lemma compress_length (h block : list Z) :
  List.length (Sha256.compress h block) = List.length h.
Proof.
  unfold Sha256.compress.
  rewrite length_map, length_combine, rounds_length. apply Nat.min_id.
Qed.

Lemma compress_all_length (blocks : list (list Z)) (h : list Z) :
  List.length (fold_left Sha256.compress blocks h) = List.length h.
Proof.
  revert h. induction blocks as [|b blocks IH]; intros h; cbn [fold_left];
    [reflexivity|]. now rewrite IH, compress_length.
Qed.

Lemma be_bytes_length (n : nat) (x : Z) : List.length (Sha256.be_bytes n x) = n.
Proof.
  revert x. induction n as [|n IH]; intros x; cbn [Sha256.be_bytes];
    [reflexivity|]. rewrite length_app, IH. cbn. lia.
Qed.

Lemma words_length (h : list Z) :
  List.length (flat_map (Sha256.be_bytes 4) h) = (4 * List.length h)%nat.
Proof.
  induction h as [|x h IH]; [reflexivity|].
  cbn [flat_map]. rewrite length_app, be_bytes_length, IH. cbn [List.length]. lia.
Qed.

Lemma digest_length (msg : list Z) : List.length (Sha256.digest msg) = 32%nat.
Proof.
  unfold Sha256.digest. rewrite words_length, compress_all_length. reflexivity.
Qed.

Lemma hex_length (bs : list Z) :
  String.length (Sha256.hex bs) = (2 * List.length bs)%nat.
Proof.
  induction bs as [|b bs IH]; [reflexivity|].
  cbn [Sha256.hex String.length List.length]. rewrite IH. lia.
Qed.

Lemma hexdigit_is_hex (n : Z) : is_hex (Sha256.hexdigit n) = true.
Proof.
  unfold Sha256.hexdigit.
  destruct (n mod 16) as [|p|p]; try reflexivity;
    do 4 (try destruct p as [p|p|]; try reflexivity).
Qed.

Lemma hex_all_hex (bs : list Z) : all_chars is_hex (Sha256.hex bs) = true.
Proof.
  induction bs as [|b bs IH]; [reflexivity|].
  cbn [Sha256.hex all_chars]. now rewrite !hexdigit_is_hex, IH.
Qed.

End DigestFacts.

(** X8.  A signature made by [generate_hmac] is always 64 characters
    long and made of the digits and the lowercase letters a-f.  So
    [verify_hmac] answers false for every ASCII signature of another
    length or with another character, for instance one written in
    uppercase. *)
Theorem generate_hmac_shape (cfg : Config) (data : string) :
  String.length (generate_hmac cfg data) = 64%nat /\
  all_chars is_hex (generate_hmac cfg data) = true /\
  (forall signature,
     isascii signature = true ->
     String.length signature <> 64%nat \/ all_chars is_hex signature = false ->
     verify_hmac cfg data signature = Return false).
Proof.
  assert (Hlen : String.length (generate_hmac cfg data) = 64%nat).
  { unfold generate_hmac, Sha256.hmac. now rewrite hex_length, digest_length. }
  assert (Hhex : all_chars is_hex (generate_hmac cfg data) = true)
    by apply hex_all_hex.
  split; [exact Hlen|]. split; [exact Hhex|].
  intros signature Ha Hs. unfold verify_hmac, compare_digest.
  rewrite generate_hmac_isascii, Ha. cbn [andb]. f_equal.
  apply String.eqb_neq. intros He. rewrite <- He in Hs.
  destruct Hs as [Hs|Hs]; [now apply Hs|]. rewrite Hhex in Hs. discriminate.
Qed.

Lemma generate_hmac_shape_witness :
  verify_hmac Sample.config "test_security_data"
    "5BE8EDBB75F9D2E0735E0488713851E439B924BF4A93ECB01EAEC326DE8D9B31"
    = Return false /\
  verify_hmac Sample.config "test_security_data" "5be8edbb" = Return false.
Proof.
  destruct (generate_hmac_shape Sample.config "test_security_data") as (_ & _ & H).
  split; apply H; try reflexivity.
  - right. reflexivity.
  - left. cbn. discriminate.
Defined.


(** ** Alerts to the admins *)

Section AlertFacts.

Lemma alert_each_delivers (admins : list string) (message level : string) (w : World) :
  let r := run (alert_each admins message level) w in
  let attempts := filter (fun admin_id => negb (is_empty admin_id)) admins in
  fst r = Return tt /\
  outbox (snd r)
    = (outbox w ++ map (fun admin_id => AdminAlert admin_id level message)
                       (reached (fault w) (calls w) attempts))%list /\
  calls (snd r) = (calls w + List.length attempts)%nat /\
  fault (snd r) = fault w.
Proof.
  revert w. induction admins as [|admin_id rest IH]; intros w; cbn zeta.
  - cbn. rewrite app_nil_r, Nat.add_0_r. repeat split.
  - cbn [alert_each filter]. rewrite run_bind.
    destruct (is_empty admin_id); cbn [negb].
    + cbn [run]. apply IH.
    + rewrite run_try_except, run_bot_call. cbn [reached List.length map].
      destruct (fault w (calls w)) eqn:Hf; cbn [run];
        match goal with |- context [run _ ?w1] =>
          destruct (IH w1) as (H1 & H2 & H3 & H4) end;
        cbn zeta in *; rewrite H1, H2, H3, H4;
        cbn [outbox calls fault called set_outbox map].
      * repeat split. lia.
      * rewrite <- app_assoc. repeat split. lia.
Qed.

Lemma reached_all (failing : nat -> bool) (n : nat) (attempts : list string) :
  (forall i, failing i = false) -> reached failing n attempts = attempts.
Proof.
  intros Hh. revert n. induction attempts as [|a rest IH]; intros n; cbn [reached].
  - reflexivity.
  - now rewrite Hh, IH.
Qed.

End AlertFacts.

(** X9.  [send_admin_alert] never raises and changes nothing but the
    outbox and the count of awaited operations.  It tries the admin ids
    that are not empty, in order, one send each; an admin receives the
    alert exactly when the send to them does not fail, and a failed send
    does not stop the following ones.  When nothing fails every non-empty
    admin id receives the alert, in order. *)
Theorem send_admin_alert_delivers (cfg : Config) (message level : string) (w : World) :
  let r := run (send_admin_alert cfg message level) w in
  fst r = Return tt /\
  outbox (snd r)
    = (outbox w ++ map (fun admin_id => AdminAlert admin_id level message)
                       (reached (fault w) (calls w) (recipients cfg)))%list /\
  calls (snd r) = (calls w + List.length (recipients cfg))%nat /\
  same_data w (snd r) /\
  (healthy w ->
   outbox (snd r)
     = (outbox w ++ map (fun admin_id => AdminAlert admin_id level message)
                        (recipients cfg))%list).
Proof.
  intros r. subst r. unfold send_admin_alert, recipients.
  destruct (alert_each_delivers (ADMIN_CHAT_IDS cfg) message level w)
    as (H1 & H2 & H3 & _). cbn zeta in *.
  split; [exact H1|]. split; [exact H2|]. split; [exact H3|]. split.
  - destruct (run_alert_each (ADMIN_CHAT_IDS cfg) message level w) as (w' & -> & Hs).
    exact Hs.
  - intros Hh. rewrite H2. now rewrite reached_all.
Qed.

Lemma send_admin_alert_delivers_witness :
  let w := mkWorld (fun _ => Sample.t0) 0 (fun n => Nat.eqb n 0) 0 [] [] [] [] [] in
  outbox (snd (run (send_admin_alert Sample.config "m" "warning") w))
    = [AdminAlert "1002" "warning" "m"] /\
  outbox (snd (run (send_admin_alert Sample.config "m" "warning") Sample.world))
    = [AdminAlert "1001" "warning" "m"; AdminAlert "1002" "warning" "m"].
Proof.
  intros w. split.
  - destruct (send_admin_alert_delivers Sample.config "m" "warning" w)
      as (_ & H & _). exact H.
  - destruct (send_admin_alert_delivers Sample.config "m" "warning" Sample.world)
      as (_ & _ & _ & _ & H). apply H. intros n. reflexivity.
Defined.


(** ** Frame conditions, the audit log and the rate counters *)

(** Frame conditions for any observation that the bookkeeping of the
    world (clock position, operation count, outbox) does not touch. *)
Section FrameFacts.
Context {X : Type} (f : World -> X).
Hypothesis f_tick : forall w, f (tick w) = f w.
Hypothesis f_called : forall w, f (called w) = f w.
Hypothesis f_outbox : forall c w, f (set_outbox c w) = f w.

Lemma keeps_await {Y} (e : exn) (g : World -> Y * World) :
  (forall w, f (snd (g w)) = f w) -> keeps f (await (awaited e g)).
Proof.
  intros Hg w. unfold await, awaited. cbn [run].
  destruct (fault w (calls w)); cbn [snd]; [apply f_called|].
  specialize (Hg (called w)). destruct (g (called w)) as [y w2].
  cbn [snd] in *. now rewrite Hg.
Qed.

Lemma keeps_alert_each (admins : list string) (message level : string) :
  keeps f (alert_each admins message level).
Proof.
  induction admins as [|a rest IH]; cbn [alert_each];
    repeat first [exact IH | apply keeps_bot_call; assumption | keeps_step];
    assumption.
Qed.

Lemma keeps_lookup_user_name (user_id : Z) : keeps f (lookup_user_name user_id).
Proof.
  unfold lookup_user_name. apply keeps_bind; [|intro; apply keeps_ret].
  now apply keeps_db_read.
Qed.

Lemma keeps_log_security_event (event_type : string) (user_id : Z)
    (details : list (string * value)) (severity : string) :
  (forall c w, f (set_security_logs c w) = f w) ->
  keeps f (log_security_event event_type user_id details severity).
Proof.
  intros Hl. unfold log_security_event.
  apply keeps_bind; [now apply keeps_now|intro].
  apply keeps_try_except; [|intro; apply keeps_ret].
  apply keeps_db_write; auto.
Qed.

End FrameFacts.

(** Proves [keeps f t] for the coroutines of the module when [f] is a
    field of the world that [t] does not write. *)
Ltac keeps_field :=
  repeat match goal with
  | |- keeps _ (alert_each _ _ _) => apply keeps_alert_each; reflexivity
  | |- keeps _ (send_admin_alert _ _ _) =>
      unfold send_admin_alert; apply keeps_alert_each; reflexivity
  | |- keeps _ (lookup_user_name _) => apply keeps_lookup_user_name; reflexivity
  | |- keeps _ (log_security_event _ _ _ _) =>
      apply keeps_log_security_event; reflexivity
  | |- keeps _ (await (awaited _ _)) =>
      apply keeps_await;
      [reflexivity
      |intros ?;
       repeat match goal with
              | |- context [let (_, _) := ?x in _] => destruct x
              end; reflexivity]
  | |- _ => keeps_step
  end.

Section RateFrame.
Variable cfg : Config.

Lemma keeps_rate_limits_block_user (user_id : Z) (reason : string)
    (admin_id duration_days : option Z) :
  keeps rate_limits (block_user cfg user_id reason admin_id duration_days).
Proof. unfold block_user. keeps_field. Qed.

Lemma keeps_rate_limits_unblock_user (user_id : Z) (admin_id : option Z) :
  keeps rate_limits (unblock_user cfg user_id admin_id).
Proof. unfold unblock_user. keeps_field. Qed.

Lemma keeps_rate_limits_unblock_each (expired : list Block) :
  keeps rate_limits (unblock_each cfg expired).
Proof.
  induction expired as [|b rest IH]; cbn [unblock_each]; [apply keeps_ret|].
  apply keeps_bind; [apply keeps_rate_limits_unblock_user|intro; exact IH].
Qed.

Lemma keeps_rate_limits_cleanup : keeps rate_limits (cleanup_expired_blocks cfg).
Proof.
  unfold cleanup_expired_blocks.
  repeat match goal with
         | |- keeps _ (unblock_each _ _) => apply keeps_rate_limits_unblock_each
         | |- _ => progress keeps_field
         end.
Qed.

Lemma keeps_rate_limits_suspicious (message : Message) (reason : string) :
  keeps rate_limits (process_suspicious_message cfg message reason).
Proof.
  unfold process_suspicious_message.
  repeat match goal with
         | |- keeps _ (block_user _ _ _ _ _) => apply keeps_rate_limits_block_user
         | |- _ => progress keeps_field
         end.
Qed.

End RateFrame.

Section CounterFacts.

Lemma has_key_true (k : string) (d : RateLimit) : has_key k d = true -> rl_key d = k.
Proof. unfold has_key. apply String.eqb_eq. Qed.

Lemma map_key_update_one (k : string) (upd : RateLimit -> RateLimit)
    (c : list RateLimit) :
  (forall d, rl_key (upd d) = rl_key d) ->
  map rl_key (Mongo.update_one (has_key k) upd c) = map rl_key c.
Proof.
  intros Hk. induction c as [|d c IH]; cbn [Mongo.update_one map]; [reflexivity|].
  destruct (has_key k d); cbn [map]; [now rewrite Hk|now rewrite IH].
Qed.

Lemma find_key_none_not_in (k : string) (c : list RateLimit) :
  Mongo.find_one (has_key k) c = None -> ~ In k (map rl_key c).
Proof.
  unfold Mongo.find_one. intros Hf Hin. apply in_map_iff in Hin.
  destruct Hin as (d & Hd & Hin). apply (find_none _ _ Hf) in Hin.
  unfold has_key in Hin. rewrite Hd, String.eqb_refl in Hin. discriminate.
Qed.

Lemma forall_update_one (P : RateLimit -> Prop) (k : string)
    (upd : RateLimit -> RateLimit) (c : list RateLimit) :
  Forall P c -> (forall d, In d c -> has_key k d = true -> P (upd d)) ->
  Forall P (Mongo.update_one (has_key k) upd c).
Proof.
  induction c as [|d c IH]; cbn [Mongo.update_one]; intros Hc Hu; [constructor|].
  inversion Hc as [|x l Hx Hl]; subst.
  destruct (has_key k d) eqn:E; constructor; auto.
  - apply Hu; [now left|exact E].
  - apply IH; [exact Hl|]. intros d' Hin. apply Hu. now right.
Qed.

(** With one counter per key, the counter found for a key is the only
    one [update_one] can touch. *)
Lemma find_one_in (k : string) (c : list RateLimit) (d : RateLimit) :
  Mongo.find_one (has_key k) c = Some d -> In d c /\ has_key k d = true.
Proof. unfold Mongo.find_one. apply find_some. Qed.

Lemma unique_key_found (k : string) (c : list RateLimit) (d d' : RateLimit) :
  NoDup (map rl_key c) ->
  Mongo.find_one (has_key k) c = Some d -> In d' c -> has_key k d' = true -> d' = d.
Proof.
  unfold Mongo.find_one.
  induction c as [|x c IH]; cbn [find map]; intros Hu Hf Hin Hk; [discriminate|].
  inversion Hu as [|y l Hy Hl]; subst.
  destruct (has_key k x) eqn:E.
  - inversion Hf; subst x. destruct Hin as [->|Hin]; [reflexivity|].
    exfalso. apply Hy. apply in_map_iff. exists d'. split; [|exact Hin].
    apply has_key_true in E, Hk. congruence.
  - destruct Hin as [->|Hin]; [congruence|]. now apply IH.
Qed.

End CounterFacts.

Section CheckEffect.
Variable cfg : Config.

(** A write followed by steps that leave the observation [f] alone. *)
Lemma write_then_keeps {X A} (f : World -> X) (g : World -> World)
    (tail : task A) (h : exn -> task A) (w1 : World) :
  (forall w, f (called w) = f w) ->
  keeps f tail -> (forall e, keeps f (h e)) ->
  let r := run (try_except (bind (db_write g) (fun _ => tail)) h) w1 in
  f (snd r) = f w1 \/ f (snd r) = f (g (called w1)).
Proof.
  intros Hc Hk Hh r. subst r. rewrite run_try_bind, run_db_write.
  destruct (fault w1 (calls w1)).
  - left. now rewrite Hh, Hc.
  - right. rewrite run_try_except. specialize (Hk (g (called w1))).
    destruct (run tail (g (called w1))) as [[a|e] w2]; cbn [snd] in *;
      [exact Hk|now rewrite Hh].
Qed.

(** Whatever fails, [check_rate_limit] leaves the counters alone or does
    one of its three writes. *)
Lemma check_rate_limit_effect (user_id : Z) (action_type : string)
    (limit window_seconds : Z) (w : World) :
  let key := limit_key user_id action_type in
  let now := clock w (ticks w) in
  let c := rate_limits w in
  let c' := rate_limits
              (snd (run (check_rate_limit cfg user_id action_type limit
                           window_seconds) w)) in
  c' = c \/
  (Mongo.find_one (has_key key) c = None /\
   c' = Mongo.insert_one (first_counter user_id action_type now) c) \/
  (exists d,
     Mongo.find_one (has_key key) c = Some d /\
     (c' = Mongo.update_one (has_key key) (reset_counter now) c \/
      c' = Mongo.update_one (has_key key) (bump_counter now (rl_count d + 1)) c)).
Proof.
  intros key now c c'. subst c'. unfold check_rate_limit.
  destruct (RATE_LIMIT_ENABLED cfg); cbn [negb]; [|now left].
  unfold check_rate_limit_body.
  rewrite run_try_bind. cbn [run datetime_now]. fold now.
  rewrite run_try_bind.
  destruct (DateTime.timedelta 0 window_seconds 0) as [delta|e]; cbn [lift run];
    [|now left].
  rewrite run_try_bind.
  destruct (DateTime.sub now delta) as [window_start|e]; cbn [lift run];
    [|now left].
  rewrite run_try_bind, run_db_read. cbn [fault calls tick].
  destruct (fault w (calls w)); [now left|].
  cbn [rate_limits called tick]. fold key. fold c.
  destruct (Mongo.find_one (has_key key) c) as [d|] eqn:E.
  - destruct (rl_window_start d <? window_start);
      match goal with
      | |- context [run (try_except (bind (db_write ?g) (fun _ => ?tail)) ?h) ?w1] =>
          destruct (@write_then_keeps _ _ rate_limits g tail h w1) as [Hs|Hs];
            [reflexivity
            |keeps_field
            |intro; apply keeps_ret
            |left; exact Hs
            |right; right; exists d; split; [reflexivity|]; rewrite Hs]
      end.
    + left. reflexivity.
    + right. reflexivity.
  - match goal with
    | |- context [run (try_except (bind (db_write ?g) (fun _ => ?tail)) ?h) ?w1] =>
        destruct (@write_then_keeps _ _ rate_limits g tail h w1) as [Hs|Hs];
          [reflexivity
          |keeps_field
          |intro; apply keeps_ret
          |left; exact Hs
          |right; left; split; [reflexivity|exact Hs]]
    end.
Qed.

Lemma check_rate_limit_sound (user_id : Z) (action_type : string)
    (limit window_seconds : Z) :
  preserves sound_counters
    (check_rate_limit cfg user_id action_type limit window_seconds).
Proof.
  intros w [Hu Hc]. unfold sound_counters.
  destruct (check_rate_limit_effect user_id action_type limit window_seconds w)
    as [Hs|[[Hn Hs]|(d & Hd & [Hs|Hs])]]; rewrite Hs.
  - split; assumption.
  - unfold Mongo.insert_one. rewrite map_app. split.
    + apply NoDup_app; [exact Hu|repeat constructor; intros []|].
      intros a Ha [Hb|[]]. subst a.
      now apply (find_key_none_not_in _ _ Hn).
    + apply Forall_app. split; [exact Hc|]. repeat constructor. cbn. lia.
  - split.
    + now rewrite map_key_update_one.
    + apply forall_update_one; [exact Hc|]. intros d' _ _. cbn. lia.
  - split.
    + now rewrite map_key_update_one.
    + apply forall_update_one; [exact Hc|]. intros d' _ _. cbn [bump_counter rl_count].
      destruct (find_one_in _ _ Hd) as [Hin _].
      pose proof (proj1 (Forall_forall _ _) Hc d Hin). cbn beta in *. lia.
Qed.

End CheckEffect.

Section ExtendsFacts.
Context {D : Type} (proj : World -> list D).

Lemma extends_keeps {A} (t : task A) : keeps proj t -> extends proj t.
Proof. intros Hk w. exists []. now rewrite Hk, app_nil_r. Qed.

Lemma extends_bind {A B} (t : task A) (k : A -> task B) :
  extends proj t -> (forall a, extends proj (k a)) -> extends proj (bind t k).
Proof.
  intros Ht Hk w. rewrite run_bind. destruct (Ht w) as [l1 H1].
  destruct (run t w) as [[a|e] w1]; cbn [snd] in *.
  - destruct (Hk a w1) as [l2 H2]. exists (l1 ++ l2)%list.
    now rewrite H2, H1, app_assoc.
  - now exists l1.
Qed.

Lemma extends_try_except {A} (t : task A) (h : exn -> task A) :
  extends proj t -> (forall e, extends proj (h e)) -> extends proj (try_except t h).
Proof.
  intros Ht Hh w. rewrite run_try_except. destruct (Ht w) as [l1 H1].
  destruct (run t w) as [[a|e] w1]; cbn [snd] in *.
  - now exists l1.
  - destruct (Hh e w1) as [l2 H2]. exists (l1 ++ l2)%list.
    now rewrite H2, H1, app_assoc.
Qed.

End ExtendsFacts.

Lemma extends_log_security_event (event_type : string) (user_id : Z)
    (details : list (string * value)) (severity : string) :
  extends security_logs (log_security_event event_type user_id details severity).
Proof.
  intros w. rewrite run_log_security_event. cbn [snd].
  destruct (fault w (calls w)); cbn [security_logs called tick set_security_logs].
  - exists []. now rewrite app_nil_r.
  - eexists. reflexivity.
Qed.

(** Proves [extends security_logs t]: the only writes to the audit log
    are those of [log_security_event]. *)
Ltac extends_logs :=
  repeat match goal with
  | |- extends _ (log_security_event _ _ _ _) => apply extends_log_security_event
  | |- extends _ (bind _ _) => apply extends_bind; [|intro]
  | |- extends _ (try_except _ _) => apply extends_try_except; [|intro]
  | |- extends _ (if ?c then _ else _) => destruct c
  | |- extends _ (match ?x with _ => _ end) => destruct x
  | |- extends _ _ => apply extends_keeps; keeps_field; fail
  end.

Section LogFacts.
Variable cfg : Config.

Lemma extends_logs_check_rate_limit (user_id : Z) (action_type : string)
    (limit window_seconds : Z) :
  extends security_logs
    (check_rate_limit cfg user_id action_type limit window_seconds).
Proof. unfold check_rate_limit, check_rate_limit_body. extends_logs. Qed.

Lemma extends_logs_block_user (user_id : Z) (reason : string)
    (admin_id duration_days : option Z) :
  extends security_logs (block_user cfg user_id reason admin_id duration_days).
Proof. unfold block_user. extends_logs. Qed.

Lemma extends_logs_unblock_user (user_id : Z) (admin_id : option Z) :
  extends security_logs (unblock_user cfg user_id admin_id).
Proof. unfold unblock_user. extends_logs. Qed.

Lemma extends_logs_unblock_each (expired : list Block) :
  extends security_logs (unblock_each cfg expired).
Proof.
  induction expired as [|b rest IH]; cbn [unblock_each].
  - apply extends_keeps, keeps_ret.
  - apply extends_bind; [apply extends_logs_unblock_user|intro; exact IH].
Qed.

Lemma extends_logs_cleanup : extends security_logs (cleanup_expired_blocks cfg).
Proof.
  unfold cleanup_expired_blocks.
  repeat match goal with
         | |- extends _ (unblock_each _ _) => apply extends_logs_unblock_each
         | |- _ => progress extends_logs
         end.
Qed.

Lemma extends_logs_suspicious (message : Message) (reason : string) :
  extends security_logs (process_suspicious_message cfg message reason).
Proof.
  unfold process_suspicious_message.
  repeat match goal with
         | |- extends _ (block_user _ _ _ _ _) => apply extends_logs_block_user
         | |- _ => progress extends_logs
         end.
Qed.

Lemma extends_logs_message (message : Message) :
  extends security_logs (on_pre_process_message cfg message).
Proof.
  unfold on_pre_process_message, is_user_blocked, touch_last_activity.
  repeat match goal with
         | |- extends _ (check_rate_limit _ _ _ _ _) =>
             apply extends_logs_check_rate_limit
         | |- extends _ (process_suspicious_message _ _ _) =>
             apply extends_logs_suspicious
         | |- _ => progress extends_logs
         end.
Qed.

Lemma extends_logs_callback (callback_query : CallbackQuery) :
  extends security_logs (on_pre_process_callback_query cfg callback_query).
Proof.
  unfold on_pre_process_callback_query, is_user_blocked, touch_last_activity.
  repeat match goal with
         | |- extends _ (check_rate_limit _ _ _ _ _) =>
             apply extends_logs_check_rate_limit
         | |- _ => progress extends_logs
         end.
Qed.

End LogFacts.

(** X10.  The audit log is append-only: whatever sequence of operations
    of the module is served (block, unblock, cleanup, rate-limit check,
    suspicious-message processing, the two middleware hooks) and whatever
    fails meanwhile, the entries that were in [security_logs] are still
    there, in the same order, followed by the new ones. *)
Theorem security_logs_append_only (cfg : Config) (rs : list request) (w : World) :
  exists added,
    security_logs (serve_all cfg rs w) = (security_logs w ++ added)%list.
Proof.
  unfold serve_all. revert w.
  induction rs as [|r rs IH]; intros w; cbn [fold_left].
  - exists []. now rewrite app_nil_r.
  - destruct (IH (serve cfg r w)) as [l2 H2].
    assert (H1 : exists l1, security_logs (serve cfg r w)
                            = (security_logs w ++ l1)%list).
    { destruct r; cbn [serve].
      - apply extends_logs_block_user.
      - apply extends_logs_unblock_user.
      - apply extends_logs_cleanup.
      - apply extends_logs_check_rate_limit.
      - apply extends_logs_suspicious.
      - apply extends_logs_message.
      - apply extends_logs_callback. }
    destruct H1 as [l1 H1]. exists (l1 ++ l2)%list.
    now rewrite H2, H1, app_assoc.
Qed.

Lemma keeps_preserves_sound {A} (t : task A) :
  keeps rate_limits t -> preserves sound_counters t.
Proof. intros Hk w Hw. unfold sound_counters. now rewrite Hk. Qed.

Lemma keeps_extends_keys {A} (t : task A) :
  keeps rate_limits t -> extends counter_keys t.
Proof.
  intros Hk w. exists []. unfold counter_keys. now rewrite Hk, app_nil_r.
Qed.

Section CounterInvariant.
Variable cfg : Config.

Lemma extends_keys_check_rate_limit (user_id : Z) (action_type : string)
    (limit window_seconds : Z) :
  extends counter_keys
    (check_rate_limit cfg user_id action_type limit window_seconds).
Proof.
  intros w. unfold counter_keys.
  destruct (check_rate_limit_effect cfg user_id action_type limit window_seconds w)
    as [Hs|[[Hn Hs]|(d & Hd & [Hs|Hs])]]; rewrite Hs.
  - exists []. now rewrite app_nil_r.
  - unfold Mongo.insert_one. rewrite map_app. eexists. reflexivity.
  - exists []. now rewrite map_key_update_one, app_nil_r.
  - exists []. now rewrite map_key_update_one, app_nil_r.
Qed.

Ltac keeps_rate :=
  unfold is_user_blocked, touch_last_activity;
  repeat match goal with
         | |- keeps _ (process_suspicious_message _ _ _) =>
             apply keeps_rate_limits_suspicious
         | |- _ => progress keeps_field
         end.

Ltac sound_step :=
  match goal with
  | |- preserves _ (check_rate_limit _ _ _ _ _) => apply check_rate_limit_sound
  | |- preserves _ (bind _ _) => apply preserves_bind; [|intro]
  | |- preserves _ (if ?c then _ else _) => destruct c
  | |- preserves _ (match ?x with _ => _ end) => destruct x
  | |- preserves _ _ => apply keeps_preserves_sound; keeps_rate; fail
  end.

Lemma message_sound (message : Message) :
  preserves sound_counters (on_pre_process_message cfg message).
Proof. unfold on_pre_process_message. repeat sound_step. Qed.

Lemma callback_sound (callback_query : CallbackQuery) :
  preserves sound_counters (on_pre_process_callback_query cfg callback_query).
Proof. unfold on_pre_process_callback_query. repeat sound_step. Qed.

Lemma message_extends_keys (message : Message) :
  extends counter_keys (on_pre_process_message cfg message).
Proof.
  unfold on_pre_process_message. apply extends_bind.
  - apply keeps_extends_keys. keeps_rate.
  - intros [|].
    + apply keeps_extends_keys. keeps_rate.
    + apply extends_bind; [apply extends_keys_check_rate_limit|].
      intros allowed. apply keeps_extends_keys. keeps_rate.
Qed.

Lemma callback_extends_keys (callback_query : CallbackQuery) :
  extends counter_keys (on_pre_process_callback_query cfg callback_query).
Proof.
  unfold on_pre_process_callback_query. apply extends_bind.
  - apply keeps_extends_keys. keeps_rate.
  - intros [|].
    + apply keeps_extends_keys. keeps_rate.
    + apply extends_bind; [apply extends_keys_check_rate_limit|].
      intros allowed. apply keeps_extends_keys. keeps_rate.
Qed.

(** What each request does to the rate counters: only
    [check_rate_limit] writes them. *)
Lemma serve_counters (r : request) (w : World) :
  (sound_counters w -> sound_counters (serve cfg r w)) /\
  (exists added, counter_keys (serve cfg r w) = (counter_keys w ++ added)%list).
Proof.
  assert (Hkeep : forall A (t : task A),
            keeps rate_limits t ->
            (sound_counters w -> sound_counters (snd (run t w))) /\
            (exists added, counter_keys (snd (run t w))
                           = (counter_keys w ++ added)%list)).
  { intros A t Hk. split; [now apply keeps_preserves_sound|].
    now apply keeps_extends_keys. }
  destruct r; cbn [serve].
  - apply Hkeep, keeps_rate_limits_block_user.
  - apply Hkeep, keeps_rate_limits_unblock_user.
  - apply Hkeep, keeps_rate_limits_cleanup.
  - split; [apply check_rate_limit_sound|apply extends_keys_check_rate_limit].
  - apply Hkeep, keeps_rate_limits_suspicious.
  - split; [apply message_sound|apply message_extends_keys].
  - split; [apply callback_sound|apply callback_extends_keys].
Qed.

End CounterInvariant.

(** X11.  The rate counters stay well formed: if there is one counter
    per key and every count is at least 1, this still holds after any
    sequence of operations of the module, whatever fails meanwhile; and
    counters are only ever added at the end, never removed or re-keyed. *)
Theorem rate_counters_invariant (cfg : Config) (rs : list request) (w : World) :
  (sound_counters w -> sound_counters (serve_all cfg rs w)) /\
  (exists added,
     counter_keys (serve_all cfg rs w) = (counter_keys w ++ added)%list).
Proof.
  unfold serve_all. revert w.
  induction rs as [|r rs IH]; intros w; cbn [fold_left].
  - split; [auto|]. exists []. now rewrite app_nil_r.
  - destruct (serve_counters cfg r w) as [Hs (l1 & H1)].
    destruct (IH (serve cfg r w)) as [Hs' (l2 & H2)].
    split; [auto|]. exists (l1 ++ l2)%list. now rewrite H2, H1, app_assoc.
Qed.

Lemma rate_counters_invariant_witness :
  sound_counters
    (serve_all Sample.config
       [DoCheckRateLimit 42 "message" 30 60; DoMessage (Sample.attack 1);
        DoCheckRateLimit 42 "message" 30 60]
       Sample.world).
Proof.
  apply rate_counters_invariant. split; constructor.
Defined.

Section KeyFacts.

Lemma to_int_not_nil (z : Z) :
  Z.to_int z <> Decimal.Pos Decimal.Nil /\ Z.to_int z <> Decimal.Neg Decimal.Nil.
Proof.
  split; intros H; pose proof (f_equal Z.of_int H) as Hz;
    rewrite DecimalZ.of_to in Hz; cbn in Hz; subst z; discriminate H.
Qed.

Lemma str_injective (a b : Z) : str a = str b -> a = b.
Proof.
  unfold str. intros H. apply (f_equal NilZero.int_of_string) in H.
  destruct (to_int_not_nil a) as [Ha1 Ha2], (to_int_not_nil b) as [Hb1 Hb2].
  rewrite !NilZero.isi in H by assumption.
  inversion H as [H']. apply (f_equal Z.of_int) in H'.
  now rewrite !DecimalZ.of_to in H'.
Qed.

Lemma uint_no_colon (d : Decimal.uint) :
  occurs ":" (NilEmpty.string_of_uint d) = false.
Proof. induction d; cbn; auto. Qed.

Lemma str_no_colon (n : Z) : occurs ":" (str n) = false.
Proof.
  unfold str. destruct (Z.to_int n) as [d|d]; cbn [NilZero.string_of_int].
  - destruct d; try reflexivity; apply uint_no_colon.
  - cbn [occurs]. destruct d; try reflexivity; apply uint_no_colon.
Qed.

Lemma split_unique (c : ascii) (s1 s2 a b : string) :
  occurs c s1 = false -> occurs c s2 = false ->
  s1 ++ String c a = s2 ++ String c b -> s1 = s2 /\ a = b.
Proof.
  revert s2. induction s1 as [|x s1 IH]; intros [|y s2] H1 H2 H;
    cbn [append occurs] in *.
  - inversion H. now split.
  - inversion H; subst. rewrite Ascii.eqb_refl in H2. discriminate.
  - inversion H; subst. rewrite Ascii.eqb_refl in H1. discriminate.
  - inversion H; subst. apply orb_false_iff in H1, H2.
    destruct (IH s2) as [-> ->]; [tauto|tauto|assumption|now split].
Qed.

Lemma limit_key_injective (u v : Z) (a b : string) :
  limit_key u a = limit_key v b -> u = v /\ a = b.
Proof.
  unfold limit_key. intros H.
  destruct (split_unique ":" (str u) (str v) a b) as [Hs Ha];
    [apply str_no_colon|apply str_no_colon|exact H|].
  split; [now apply str_injective|exact Ha].
Qed.

Lemma find_other_insert_one (k : string) (d : RateLimit) (c : list RateLimit) :
  has_key k d = false ->
  Mongo.find_one (has_key k) (Mongo.insert_one d c) = Mongo.find_one (has_key k) c.
Proof.
  unfold Mongo.find_one, Mongo.insert_one. intros Hk.
  induction c as [|x c IH]; cbn [app find].
  - now rewrite Hk.
  - now destruct (has_key k x).
Qed.

Lemma find_other_update_one (k k' : string) (upd : RateLimit -> RateLimit)
    (c : list RateLimit) :
  k <> k' -> (forall d, rl_key (upd d) = rl_key d) ->
  Mongo.find_one (has_key k') (Mongo.update_one (has_key k) upd c)
  = Mongo.find_one (has_key k') c.
Proof.
  unfold Mongo.find_one. intros Hne Hk.
  induction c as [|x c IH]; cbn [Mongo.update_one find]; [reflexivity|].
  destruct (has_key k x) eqn:E; cbn [find].
  - assert (Hx : has_key k' x = false).
    { apply has_key_true in E. unfold has_key. rewrite E.
      now apply String.eqb_neq. }
    assert (Hu : has_key k' (upd x) = false).
    { unfold has_key in *. now rewrite Hk. }
    now rewrite Hx, Hu.
  - destruct (has_key k' x); [reflexivity|exact IH].
Qed.

End KeyFacts.

(** X12.  Rate limits are kept per user and per action: the key
    ["<user_id>:<action_type>"] determines both, so a call of
    [check_rate_limit] for one user and action never changes the counter
    of another user or of another action, whatever fails meanwhile. *)
Theorem check_rate_limit_isolated (cfg : Config) (user_id other : Z)
    (action_type other_action : string) (limit window_seconds : Z) (w : World) :
  user_id <> other \/ action_type <> other_action ->
  counter other other_action
    (snd (run (check_rate_limit cfg user_id action_type limit window_seconds) w))
  = counter other other_action w.
Proof.
  intros Hne.
  assert (Hk : limit_key user_id action_type <> limit_key other other_action).
  { intros H. apply limit_key_injective in H. tauto. }
  unfold counter.
  destruct (check_rate_limit_effect cfg user_id action_type limit window_seconds w)
    as [Hs|[[_ Hs]|(d & _ & [Hs|Hs])]]; rewrite Hs.
  - reflexivity.
  - apply find_other_insert_one. unfold has_key, first_counter. cbn [rl_key].
    now apply String.eqb_neq.
  - now apply find_other_update_one.
  - now apply find_other_update_one.
Qed.

Lemma check_rate_limit_isolated_witness :
  counter 42 "message"
    (snd (run (check_rate_limit Sample.config 42 "callback" 20 60) Sample.busy_world))
  = Some (Sample.counter_42 29) /\
  counter 42 "message"
    (snd (run (check_rate_limit Sample.config 4 "2:message" 30 60) Sample.busy_world))
  = Some (Sample.counter_42 29).
Proof.
  split.
  - rewrite (@check_rate_limit_isolated Sample.config 42 42 "callback" "message"
               20 60 Sample.busy_world); [reflexivity|right; discriminate].
  - rewrite (@check_rate_limit_isolated Sample.config 4 42 "2:message" "message"
               30 60 Sample.busy_world); [reflexivity|left; discriminate].
Defined.


(** ** The block list: sweep, round trip, expiry *)

Section BlockListFacts.





End BlockListFacts.

Section SweepFacts.
Variable cfg : Config.





End SweepFacts.











(** ** The middleware *)

Section RaisesFacts.

Lemma raises_throw {A} (e : exn) : raises (@Throw A e).
Proof. intros w. now exists e. Qed.

Lemma raises_bind {A B} (t : task A) (k : A -> task B) :
  (forall a, raises (k a)) -> raises (bind t k).
Proof.
  intros Hk w. rewrite run_bind.
  destruct (run t w) as [[a|e] w1]; [apply Hk|now exists e].
Qed.

End RaisesFacts.

Section GateRejects.
Variable cfg : Config.

Lemma detect_nonempty (t : string) :
  fst (detect_potential_attack t) = true -> exists c t', t = String c t'.
Proof. destruct t as [|c t']; [discriminate|eauto]. Qed.

Lemma message_attack_raises (message : Message) (t : string) :
  text message = Some t -> fst (detect_potential_attack t) = true ->
  raises (on_pre_process_message cfg message).
Proof.
  intros Ht Hd. destruct (detect_nonempty _ Hd) as (c & t' & ->).
  unfold on_pre_process_message. rewrite Ht.
  apply raises_bind. intros [|].
  - repeat (apply raises_bind; intro). apply raises_throw.
  - apply raises_bind. intros [|]; cbn [negb].
    + destruct (detect_potential_attack (String c t')) as [is_attack pattern].
      cbn [fst] in Hd. subst is_attack.
      repeat (apply raises_bind; intro). apply raises_throw.
    + repeat (apply raises_bind; intro). apply raises_throw.
Qed.

Lemma message_blocked_raises (message : Message) (w : World) :
  fault w (calls w) = false ->
  Mongo.find_one (blocked_as (from_user_id message)) (blocked_users w) <> None ->
  exists e, fst (run (on_pre_process_message cfg message) w) = Raise e.
Proof.
  intros Hf Hb. unfold on_pre_process_message.
  rewrite run_bind, run_is_user_blocked, Hf.
  destruct (Mongo.find_one _ _); [|contradiction]. cbn [is_some].
  match goal with |- context [run ?t ?w1] =>
    assert (Hr : raises t) by (repeat (apply raises_bind; intro); apply raises_throw);
    apply Hr end.
Qed.

Lemma callback_blocked_raises (callback_query : CallbackQuery) (w : World) :
  fault w (calls w) = false ->
  Mongo.find_one (blocked_as (cq_from_user_id callback_query)) (blocked_users w)
    <> None ->
  exists e, fst (run (on_pre_process_callback_query cfg callback_query) w) = Raise e.
Proof.
  intros Hf Hb. unfold on_pre_process_callback_query.
  rewrite run_bind, run_is_user_blocked, Hf.
  destruct (Mongo.find_one _ _); [|contradiction]. cbn [is_some].
  match goal with |- context [run ?t ?w1] =>
    assert (Hr : raises t) by (repeat (apply raises_bind; intro); apply raises_throw);
    apply Hr end.
Qed.

End GateRejects.

(** X17.  What the middleware never lets through.  A message whose text
    contains an attack pattern never passes [on_pre_process_message],
    whatever fails: the hook ends by raising.  A message or a callback
    query of a user with a stored block never passes when the block
    lookup works, whatever fails afterwards. *)
Theorem middleware_never_passes (cfg : Config) :
  (forall message t w,
     text message = Some t -> fst (detect_potential_attack t) = true ->
     fst (run (on_pre_process_message cfg message) w) <> Return tt) /\
  (forall message w,
     fault w (calls w) = false ->
     Mongo.find_one (blocked_as (from_user_id message)) (blocked_users w) <> None ->
     fst (run (on_pre_process_message cfg message) w) <> Return tt) /\
  (forall callback_query w,
     fault w (calls w) = false ->
     Mongo.find_one (blocked_as (cq_from_user_id callback_query)) (blocked_users w)
       <> None ->
     fst (run (on_pre_process_callback_query cfg callback_query) w) <> Return tt).
Proof.
  split; [|split].
  - intros message t w Ht Hd.
    destruct (@message_attack_raises cfg message t Ht Hd w) as [e He].
    rewrite He. discriminate.
  - intros message w Hf Hb.
    destruct (@message_blocked_raises cfg message w Hf Hb) as [e He].
    rewrite He. discriminate.
  - intros callback_query w Hf Hb.
    destruct (@callback_blocked_raises cfg callback_query w Hf Hb) as [e He].
    rewrite He. discriminate.
Qed.

Lemma middleware_never_passes_witness :
  fst (run (on_pre_process_message Sample.config (Sample.attack 1)) Sample.blackout)
    <> Return tt /\
  fst (run (on_pre_process_message Sample.config
              (mkMessage 5 7 "Eve" 7 (Some "hello")))
           (mkWorld (fun _ => Sample.t0) 0 (fun n => Nat.ltb 0 n) 0 []
                    [Sample.block_7 Sample.t0] [] [] []))
    <> Return tt.
Proof.
  destruct (middleware_never_passes Sample.config) as (Hattack & Hblocked & _).
  split.
  - apply Hattack with (t := "javascript:doEvil()"); reflexivity.
  - apply Hblocked; [reflexivity|]. cbn. discriminate.
Defined.

(** X18.  A message of a blocked user, when nothing fails: the hook
    raises [CancelHandler], appends one [blocked_user_attempt] entry to
    the audit log, replies with the blocked notice, and touches neither
    the rate counters, nor the block list, nor the users; in particular
    the text of the message is not examined. *)
Theorem blocked_message_is_cancelled (cfg : Config) (message : Message) (w : World) :
  healthy w ->
  Mongo.find_one (blocked_as (from_user_id message)) (blocked_users w) <> None ->
  let r := run (on_pre_process_message cfg message) w in
  fst r = Raise CancelHandler /\
  security_logs (snd r)
    = (security_logs w ++ [attempt_event message (clock w (ticks w))])%list /\
  outbox (snd r)
    = (outbox w ++ [Reply (message_id message) blocked_notice])%list /\
  rate_limits (snd r) = rate_limits w /\
  blocked_users (snd r) = blocked_users w /\
  users (snd r) = users w.
Proof.
  intros Hh Hb r. subst r. unfold on_pre_process_message.
  rewrite run_bind, run_is_user_blocked, Hh.
  destruct (Mongo.find_one _ _); [|contradiction]. cbn [is_some].
  rewrite run_bind, run_log_security_event. cbn [fault calls called]. rewrite Hh.
  rewrite run_bind, run_bot_call.
  cbn [fault calls called tick set_security_logs]. rewrite Hh.
  cbn [run fst snd]. repeat split.
Qed.

Lemma blocked_message_is_cancelled_witness :
  let w := mkWorld (fun _ => Sample.t0) 0 (fun _ => false) 0 []
             [Sample.block_7 Sample.t0] [] [] [] in
  let r := run (on_pre_process_message Sample.config (Sample.attack 9)) w in
  fst r = Raise CancelHandler /\
  security_logs (snd r) = [attempt_event (Sample.attack 9) Sample.t0] /\
  blocked_users (snd r) = [Sample.block_7 Sample.t0].
Proof.
  intros w r.
  destruct (@blocked_message_is_cancelled Sample.config (Sample.attack 9) w)
    as (H1 & H2 & _ & _ & H5 & _).
  - intros n. reflexivity.
  - cbn. discriminate.
  - repeat split; assumption.
Defined.

Section VerdictFacts.
Variable cfg : Config.
Hypothesis enabled : RATE_LIMIT_ENABLED cfg = true.

Lemma keeps_users_check_rate_limit (user_id : Z) (action_type : string)
    (limit window_seconds : Z) :
  keeps users (check_rate_limit cfg user_id action_type limit window_seconds).
Proof. unfold check_rate_limit, check_rate_limit_body. keeps_field. Qed.

(** When nothing fails, [check_rate_limit] answers [within_quota]; an
    allowed call reads the clock once and neither sends nor logs. *)
Lemma check_rate_limit_verdict (user_id : Z) (action_type : string)
    (limit window_seconds : Z) (w : World) :
  healthy w -> timely_at window_seconds (clock w (ticks w)) ->
  let verdict := within_quota (counter user_id action_type w) (clock w (ticks w))
                              limit window_seconds in
  exists w',
    run (check_rate_limit cfg user_id action_type limit window_seconds) w
      = (Return verdict, w') /\
    fault w' = fault w /\ clock w' = clock w /\
    blocked_users w' = blocked_users w /\ users w' = users w /\
    (verdict = true ->
     ticks w' = S (ticks w) /\ outbox w' = outbox w /\
     security_logs w' = security_logs w).
Proof.
  intros Hh Ht verdict.
  pose proof (keeps_blocks_check_rate_limit cfg user_id action_type limit
                window_seconds w) as Hb.
  pose proof (@keeps_users_check_rate_limit user_id action_type limit
                window_seconds w) as Hu.
  subst verdict. unfold within_quota.
  destruct (counter user_id action_type w) as [d|] eqn:Hc.
  - destruct (Z.ltb_spec (rl_window_start d)
                (clock w (ticks w) - window_seconds * DateTime.US_PER_SECOND))
      as [Hlt|Hge]; cbn [orb].
    + rewrite (@check_rate_limit_reset cfg enabled user_id action_type limit
                 window_seconds w d Hh Ht Hc Hlt) in *.
      eexists. split; [reflexivity|]. repeat split.
    + destruct (Z.leb_spec (rl_count d + 1) limit) as [Hle|Hgt].
      * rewrite (@check_rate_limit_allowed cfg enabled user_id action_type limit
                   window_seconds w d Hh Ht Hc Hge Hle) in *.
        eexists. split; [reflexivity|]. repeat split.
      * destruct (@check_rate_limit_denied cfg enabled user_id action_type limit
                    window_seconds w d Hh Ht Hc Hge Hgt)
          as (w' & Hrun & _ & Hck & Hf).
        rewrite Hrun in *. cbn [snd] in *.
        exists w'. split; [reflexivity|]. repeat split; auto; discriminate.
  - rewrite (@check_rate_limit_first cfg enabled user_id action_type limit
               window_seconds w Hh Ht Hc) in *.
    eexists. split; [reflexivity|]. repeat split.
Qed.

Lemma touch_last_activity_healthy (user_id : Z) (w : World) :
  fault w (calls w) = false ->
  run (touch_last_activity user_id) w
  = (Return tt,
     set_users (seen_at user_id (clock w (ticks w)) (users w)) (called (tick w))).
Proof.
  intros Hf. unfold touch_last_activity. rewrite run_try_except, run_bind.
  cbn [run datetime_now]. rewrite run_db_write. cbn [fault calls tick]. rewrite Hf.
  reflexivity.
Qed.

End VerdictFacts.

(** X19.  The decision of [on_pre_process_message] for a user who is not
    blocked, when nothing fails and rate limiting is enabled.  If the
    quota of 30 messages per 60 seconds is exceeded, the hook replies with
    the slow-down notice as its last send and raises [CancelHandler],
    leaving the block list and the users alone.  Otherwise a message
    without attack pattern passes: the hook returns normally, sets the
    user's [last_activity] to the second clock reading (creating no user
    record), and sends and logs nothing. *)
Theorem message_gate_decision (cfg : Config) (message : Message) (w : World) :
  RATE_LIMIT_ENABLED cfg = true -> healthy w ->
  timely_at 60 (clock w (ticks w)) ->
  Mongo.find_one (blocked_as (from_user_id message)) (blocked_users w) = None ->
  let user_id := from_user_id message in
  let r := run (on_pre_process_message cfg message) w in
  (within_quota (counter user_id "message" w) (clock w (ticks w)) 30 60 = false ->
   fst r = Raise CancelHandler /\
   (exists sent,
      outbox (snd r)
      = (sent ++ [Reply (message_id message)
                    "You're sending messages too quickly. Please slow down."])%list) /\
   blocked_users (snd r) = blocked_users w /\ users (snd r) = users w) /\
  (within_quota (counter user_id "message" w) (clock w (ticks w)) 30 60 = true ->
   harmless message ->
   fst r = Return tt /\
   users (snd r) = seen_at user_id (clock w (S (ticks w))) (users w) /\
   outbox (snd r) = outbox w /\ security_logs (snd r) = security_logs w /\
   blocked_users (snd r) = blocked_users w).
Proof.
  intros He Hh Ht Hb user_id r. subst r user_id. unfold on_pre_process_message.
  rewrite run_bind, run_is_user_blocked, Hh, Hb. cbn [is_some].
  rewrite run_bind.
  destruct (@check_rate_limit_verdict cfg He (from_user_id message) "message" 30 60
              (called w) Hh Ht)
    as (w' & Hrun & Hf & Hck & Hbl & Hus & Hok).
  change (counter (from_user_id message) "message" (called w))
    with (counter (from_user_id message) "message" w) in *.
  cbn [clock ticks called] in Hrun, Hok. rewrite Hrun.
  split; intros Hv; rewrite Hv in *; cbn [negb].
  - rewrite run_bind, run_bot_call, Hf. cbn [fault called]. rewrite Hh.
    cbn [run fst snd]. split; [reflexivity|]. split; [eexists; reflexivity|].
    split; [exact Hbl|exact Hus].
  - intros Hm. destruct (Hok eq_refl) as (Hti & Hob & Hlg).
    assert (Hrun' : run (touch_last_activity (from_user_id message)) w'
              = (Return tt,
                 set_users (seen_at (from_user_id message) (clock w' (ticks w'))
                              (users w')) (called (tick w')))).
    { apply touch_last_activity_healthy. rewrite Hf. cbn [fault called]. apply Hh. }
    rewrite Hck, Hti, Hus in Hrun'. cbn [clock ticks called] in Hrun'.
    assert (Hgoal : let r := run (touch_last_activity (from_user_id message)) w' in
              fst r = Return tt /\
              users (snd r)
                = seen_at (from_user_id message) (clock w (S (ticks w))) (users w) /\
              outbox (snd r) = outbox w /\ security_logs (snd r) = security_logs w /\
              blocked_users (snd r) = blocked_users w).
    { cbn zeta. rewrite Hrun'. cbn [fst snd]. repeat split; assumption. }
    unfold harmless in Hm.
    destruct (text message) as [[|c t]|]; try exact Hgoal.
    specialize (Hm _ eq_refl).
    destruct (detect_potential_attack (String c t)) as [is_attack pattern].
    cbn [fst] in Hm. subst is_attack. exact Hgoal.
Qed.

Lemma message_gate_decision_witness :
  let hello := mkMessage 5 42 "Ann" 42 (Some "hello") in
  fst (run (on_pre_process_message Sample.config hello) Sample.boundary_world)
    = Raise CancelHandler /\
  fst (run (on_pre_process_message Sample.config hello) Sample.busy_world)
    = Return tt.
Proof.
  intros hello. split.
  - destruct (@message_gate_decision Sample.config hello Sample.boundary_world)
      as [Hdeny _]; [reflexivity|intros n; reflexivity| |reflexivity|].
    + unfold timely_at. cbn [clock ticks Sample.boundary_world].
      unfold Sample.t0, DateTime.max, DateTime.US_PER_DAY, DateTime.US_PER_SECOND. lia.
    + apply Hdeny. reflexivity.
  - destruct (@message_gate_decision Sample.config hello Sample.busy_world)
      as [_ Hpass]; [reflexivity|intros n; reflexivity| |reflexivity|].
    + unfold timely_at. cbn [clock ticks Sample.busy_world].
      unfold Sample.t0, DateTime.max, DateTime.US_PER_DAY, DateTime.US_PER_SECOND. lia.
    + apply Hpass; [reflexivity|]. intros t Ht. inversion Ht. reflexivity.
Defined.

(** X20.  The decision of [on_pre_process_callback_query] for a user who
    is not blocked, when nothing fails and rate limiting is enabled.  If
    the quota of 20 callbacks per 60 seconds is exceeded, the hook answers
    the query with the slow-down notice as its last send and raises
    [CancelHandler]; otherwise it returns normally, sets the user's
    [last_activity], and sends and logs nothing.  The callback data is
    never examined. *)
Theorem callback_gate_decision (cfg : Config) (callback_query : CallbackQuery)
    (w : World) :
  RATE_LIMIT_ENABLED cfg = true -> healthy w ->
  timely_at 60 (clock w (ticks w)) ->
  Mongo.find_one (blocked_as (cq_from_user_id callback_query)) (blocked_users w)
    = None ->
  let user_id := cq_from_user_id callback_query in
  let r := run (on_pre_process_callback_query cfg callback_query) w in
  (within_quota (counter user_id "callback" w) (clock w (ticks w)) 20 60 = false ->
   fst r = Raise CancelHandler /\
   (exists sent,
      outbox (snd r)
      = (sent ++ [Answer (cq_id callback_query)
                    "You're interacting too quickly. Please slow down."])%list) /\
   blocked_users (snd r) = blocked_users w /\ users (snd r) = users w) /\
  (within_quota (counter user_id "callback" w) (clock w (ticks w)) 20 60 = true ->
   fst r = Return tt /\
   users (snd r) = seen_at user_id (clock w (S (ticks w))) (users w) /\
   outbox (snd r) = outbox w /\ security_logs (snd r) = security_logs w /\
   blocked_users (snd r) = blocked_users w).
Proof.
  intros He Hh Ht Hb user_id r. subst r user_id.
  unfold on_pre_process_callback_query.
  rewrite run_bind, run_is_user_blocked, Hh, Hb. cbn [is_some].
  rewrite run_bind.
  destruct (@check_rate_limit_verdict cfg He (cq_from_user_id callback_query)
              "callback" 20 60 (called w) Hh Ht)
    as (w' & Hrun & Hf & Hck & Hbl & Hus & Hok).
  change (counter (cq_from_user_id callback_query) "callback" (called w))
    with (counter (cq_from_user_id callback_query) "callback" w) in *.
  cbn [clock ticks called] in Hrun, Hok. rewrite Hrun.
  split; intros Hv; rewrite Hv in *; cbn [negb].
  - rewrite run_bind, run_bot_call, Hf. cbn [fault called]. rewrite Hh.
    cbn [run fst snd]. split; [reflexivity|]. split; [eexists; reflexivity|].
    split; [exact Hbl|exact Hus].
  - destruct (Hok eq_refl) as (Hti & Hob & Hlg).
    rewrite touch_last_activity_healthy
      by (rewrite Hf; cbn [fault called]; apply Hh).
    rewrite Hck, Hti, Hus. cbn [fst snd users outbox security_logs blocked_users
                                  set_users called tick].
    repeat split; assumption.
Qed.

Lemma callback_gate_decision_witness :
  let tap := mkCallbackQuery "q1" 42 (Some "menu") in
  let r := run (on_pre_process_callback_query Sample.config tap) Sample.busy_world in
  fst r = Return tt /\ outbox (snd r) = [].
Proof.
  intros tap r.
  destruct (@callback_gate_decision Sample.config tap Sample.busy_world)
    as [_ Hpass]; [reflexivity|intros n; reflexivity| |reflexivity|].
  - unfold timely_at. cbn [clock ticks Sample.busy_world].
    unfold Sample.t0, DateTime.max, DateTime.US_PER_DAY, DateTime.US_PER_SECOND. lia.
  - destruct (Hpass eq_refl) as (H1 & _ & H3 & _). split; assumption.
Defined.

